(** * Pinloop: chromatin-loop contact probabilities for element-gene pairs

    A shallow embedding of [src/pinloop/pinloop.py] and the properties of
    its loop scorer.

    Conventions of the embedding.
    - Positions read from the tables ([GeneTSS], [ElementStart],
      [ElementEnd], [center1], [center2], [loop_length]) are integers, [Z].
    - [float64] values that the script computes (element centers, loop
      counts, accumulated weights) are idealised as exact rationals, [Q].
      The one operation of the script that can leave the finite floats on
      finite inputs, the division of [np.divide], returns an [npfloat],
      which is either a finite value or [NotFinite] (nan or an infinity).
    - A pandas frame is a list of rows, each with its index label; the
      labels of a frame after [reset_index(drop=True)] are [0, 1, ...].
    - Exceptions are explicit: a computation that can raise returns a
      [result]. *)

From Stdlib Require Import Ascii String ZArith QArith Bool List Lia Lqa Sorted PeanoNat.
Import ListNotations.

Close Scope Q_scope.
Close Scope Z_scope.
Open Scope nat_scope.

(** ** Values and outcomes *)

Inductive npfloat : Type :=
| Finite (q : Q)
| NotFinite.

(** [KeyError]: a label is absent from an axis.  [NotScalar]: a label
    selects several rows or columns, so that [lookup.loc[r, c]] is a Series
    or a frame and not a float that could be stored in a cell.
    [TypeError]: a string is concatenated with a value that is not one. *)
Inductive result (A : Type) : Type :=
| Ok (a : A)
| KeyError (label : string)
| NotScalar (label : string)
| TypeError.

Arguments Ok {A} a.
Arguments KeyError {A} label.
Arguments NotScalar {A} label.
Arguments TypeError {A}.

Definition bind {A B : Type} (r : result A) (k : A -> result B) : result B :=
  match r with
  | Ok a => k a
  | KeyError l => KeyError l
  | NotScalar l => NotScalar l
  | TypeError => TypeError
  end.

Notation "x <- r ;; k" := (bind r (fun x => k))
  (at level 61, r at next level, right associativity).

Fixpoint mapM {A B : Type} (f : A -> result B) (l : list A) : result (list B) :=
  match l with
  | [] => Ok []
  | a :: rest => b <- f a ;; bs <- mapM f rest ;; Ok (b :: bs)
  end.

(** ** The numpy operations the script calls *)

Module NumPy.

Definition Qltb (x y : Q) : bool := negb (Qle_bool y x).

(** The binary search of [np.searchsorted] with the default [side='left']
    for one key [v], on the window from [lo] to [hi], [hi] excluded.  The
    array is not checked for order.  [fuel] bounds the number of halvings;
    [len(a)] of them are more than a window of the array needs. *)
Fixpoint bsearch (fuel : nat) (a : list Q) (v : Q) (lo hi : nat) : nat :=
  match fuel with
  | O => lo
  | S fuel' =>
      if lo <? hi then
        let mid := lo + (hi - lo) / 2 in
        if Qltb (nth mid a 0%Q) v
        then bsearch fuel' a v (mid + 1) hi
        else bsearch fuel' a v lo mid
      else lo
  end.

(** [np.searchsorted(a, v)] for a single key: the search on the whole
    array. *)
Definition searchsorted (a : list Q) (v : Q) : nat :=
  bsearch (length a) a v 0 (length a).

(** [np.searchsorted(a, keys)] for an array of keys.  The library searches
    the keys one by one and starts each search from the window the
    previous key left: when the key is above the previous one it keeps the
    lower end [min_idx] and resets the upper end to the length of the
    array, otherwise it resets the lower end to 0 and takes the upper end
    one past the previous [max_idx].  Each search ends with [min_idx] and
    [max_idx] both at the position found. *)
Fixpoint search_keys (a : list Q) (keys : list Q) (min_idx max_idx : nat)
    (last_key_val : Q) : list nat :=
  match keys with
  | [] => []
  | key_val :: rest =>
      let lo := if Qltb last_key_val key_val then min_idx else 0 in
      let hi :=
        if Qltb last_key_val key_val then length a
        else if max_idx <? length a then max_idx + 1 else length a in
      let found := bsearch (length a) a key_val lo hi in
      found :: search_keys a rest found found key_val
  end.

Definition searchsorted_keys (a : list Q) (keys : list Q) : list nat :=
  match keys with
  | [] => []
  | key0 :: _ => search_keys a keys 0 (length a) key0
  end.

(** [np.zeros(shape=n)] and [np.zeros(shape=(n, m))]. *)
Definition zeros (n : nat) : list Q := repeat 0%Q n.
Definition zeros2 (n m : nat) : list (list Q) := repeat (zeros m) n.

(** [a[start:stop] = f(a[start:stop])], elementwise, for a slice whose
    bounds are array positions or [None]. *)
Fixpoint slice_map_from {A : Type} (i lo hi : nat) (f : A -> A) (a : list A)
  : list A :=
  match a with
  | [] => []
  | x :: rest =>
      (if (lo <=? i) && (i <? hi) then f x else x)
        :: slice_map_from (S i) lo hi f rest
  end.

Definition slice_map {A : Type} (start stop : option nat) (f : A -> A)
    (a : list A) : list A :=
  slice_map_from 0
    (match start with Some s => s | None => 0 end)
    (match stop with Some e => e | None => length a end)
    f a.

(** Float division: finite for a nonzero divisor, nan or an infinity
    for a zero one. *)
Definition true_divide (x y : Q) : npfloat :=
  if Qeq_bool y 0 then NotFinite else Finite (x / y).

(** [np.divide(p, t[:, None], out=np.zeros_like(p), where=t[:, None] != 0)]:
    row [g] of [p] is divided by [t[g]] where the mask holds; elsewhere
    the cell of [out], a zero, is kept and no division is performed. *)
Definition divide_where (p : list (list Q)) (t : list Q)
  : list (list npfloat) :=
  map (fun rt : list Q * Q =>
         let (row, tg) := rt in
         map (fun x => if negb (Qeq_bool tg 0)
                       then true_divide x tg
                       else Finite 0)
             row)
      (combine p t).

(** [m.T] for a matrix with [ncols] columns. *)
Fixpoint transpose {A : Type} (ncols : nat) (m : list (list A))
  : list (list A) :=
  match m with
  | [] => repeat [] ncols
  | row :: rest =>
      map (fun xc : A * list A => fst xc :: snd xc)
          (combine row (transpose ncols rest))
  end.

End NumPy.

(** ** The pandas operations the script calls *)

Module Pandas.

Definition frame (A : Type) : Type := list (nat * A).

Definition index {A : Type} (df : frame A) : list nat := map fst df.
Definition rows {A : Type} (df : frame A) : list A := map snd df.

(** [reset_index(drop=True)]: the labels become [0 .. n-1]. *)
Definition reset_index {A : Type} (l : list A) : frame A :=
  combine (seq 0 (length l)) l.

(** [drop_duplicates()] and [unique()]: the first occurrence of every
    value is kept, in the order of appearance. *)
Fixpoint drop_duplicates_from {A : Type} (eqb : A -> A -> bool)
    (seen l : list A) : list A :=
  match l with
  | [] => []
  | x :: rest =>
      if existsb (eqb x) seen
      then drop_duplicates_from eqb seen rest
      else x :: drop_duplicates_from eqb (x :: seen) rest
  end.

Definition drop_duplicates {A : Type} (eqb : A -> A -> bool) (l : list A)
  : list A :=
  drop_duplicates_from eqb [] l.

(** A frame of floats with string labels on both axes, as built by
    [pd.DataFrame(data=..., index=..., columns=...)]. *)
Record DataFrame : Type := {
  df_index : list string;
  df_columns : list string;
  df_data : list (list npfloat)
}.

(** The positions of a label on an axis. *)
Fixpoint positions_from (i : nat) (label : string) (axis : list string)
  : list nat :=
  match axis with
  | [] => []
  | l :: rest =>
      if String.eqb l label
      then i :: positions_from (S i) label rest
      else positions_from (S i) label rest
  end.

Definition positions (label : string) (axis : list string) : list nat :=
  positions_from 0 label axis.

(** [df.loc[r, c]] used as a float.  A label missing from its axis raises
    [KeyError].  When both labels are missing the error is given the label
    of the row here; pandas names the label of the column in that case. *)
Definition loc (df : DataFrame) (r c : string) : result npfloat :=
  match positions r (df_index df), positions c (df_columns df) with
  | [], _ => KeyError r
  | _, [] => KeyError c
  | [i], [j] => Ok (nth j (nth i (df_data df) []) (Finite 0))
  | _ :: _ :: _, _ => NotScalar r
  | _, _ => NotScalar c
  end.

(** [col.loc[labels] = values] on a column whose labels are its
    positions. *)
Fixpoint set_nth {A : Type} (i : nat) (v : A) (col : list A) : list A :=
  match col, i with
  | [], _ => []
  | _ :: rest, O => v :: rest
  | x :: rest, S i' => x :: set_nth i' v rest
  end.

Definition loc_assign {A : Type} (col : list A) (labels : list nat)
    (vals : list A) : list A :=
  fold_left (fun c lv => set_nth (fst lv) (snd lv) c)
            (combine labels vals) col.

End Pandas.

Import NumPy Pandas.

(** ** Tables *)

(** A chromosome name as [read_table] parses it: a string, or an integer
    when the names of the column are made of digits. *)
Inductive chrom : Type :=
| ChrStr (s : string)
| ChrInt (z : Z).

Coercion ChrStr : string >-> chrom.
Bind Scope string_scope with chrom.

Definition chrom_eqb (a b : chrom) : bool :=
  match a, b with
  | ChrStr s, ChrStr s' => String.eqb s s'
  | ChrInt z, ChrInt z' => Z.eqb z z'
  | _, _ => false
  end.

(** A parsed cell of a column the script does not read. *)
Inductive cell : Type :=
| Text (s : string)
| Whole (z : Z)
| Real (x : npfloat).

(** A row of the pair table: the seven columns the script reads and the
    cells of every other column. *)
Record pair : Type := {
  ElementChr : chrom;
  ElementStart : Z;
  ElementEnd : Z;
  ElementName : string;
  GeneEnsemblID : string;
  GeneSymbol : string;
  GeneTSS : Z;
  other_columns : list cell
}.

(** A row of the loop catalog [ChIA-PET_final.tsv]. *)
Record loop : Type := {
  chr : chrom;
  center1 : Z;
  center2 : Z;
  loop_length : Z;
  count : Q
}.

(** Rows of [genes_on_chr]: [GeneEnsemblID, GeneSymbol, GeneTSS]; rows of
    [elements_on_chr]: [ElementName, ElementStart, ElementEnd]. *)
Definition gene_row : Type := (string * string * Z)%type.
Definition element_row : Type := (string * Z * Z)%type.

Definition gene_id (g : gene_row) : string := fst (fst g).
Definition gene_tss (g : gene_row) : Z := snd g.
Definition element_name (e : element_row) : string := fst (fst e).

(** [df_atac["center"] = (df_atac["ElementStart"] + df_atac["ElementEnd"]) / 2],
    as a rational: the sum of two genomic coordinates is far below the
    range of [int64] and its half is a [float64] without rounding. *)
Definition center (e : element_row) : Q :=
  (inject_Z (snd (fst e) + snd e) / 2)%Q.

Definition gene_row_eqb (a b : gene_row) : bool :=
  String.eqb (fst (fst a)) (fst (fst b))
  && String.eqb (snd (fst a)) (snd (fst b))
  && Z.eqb (snd a) (snd b).

Definition element_row_eqb (a b : element_row) : bool :=
  String.eqb (fst (fst a)) (fst (fst b))
  && Z.eqb (snd (fst a)) (snd (fst b))
  && Z.eqb (snd a) (snd b).

(** A loop with the four columns [alloc_pinloop] adds. *)
Record alloc_loop : Type := {
  source : loop;
  atac_start : nat;
  atac_end : nat;
  rnaseq_start : nat;
  rnaseq_end : nat
}.

(** ** [alloc_pinloop] *)

(** [loops.loc[df_chiapet.index, column] = values]: one column of the
    loops is written from an array, row by row. *)
Definition with_atac_start (al : alloc_loop) (v : nat) : alloc_loop :=
  Build_alloc_loop (source al) v (atac_end al) (rnaseq_start al) (rnaseq_end al).
Definition with_atac_end (al : alloc_loop) (v : nat) : alloc_loop :=
  Build_alloc_loop (source al) (atac_start al) v (rnaseq_start al) (rnaseq_end al).
Definition with_rnaseq_start (al : alloc_loop) (v : nat) : alloc_loop :=
  Build_alloc_loop (source al) (atac_start al) (atac_end al) v (rnaseq_end al).
Definition with_rnaseq_end (al : alloc_loop) (v : nat) : alloc_loop :=
  Build_alloc_loop (source al) (atac_start al) (atac_end al) (rnaseq_start al) v.

Definition assign_column (set : alloc_loop -> nat -> alloc_loop)
    (values : list nat) (loops : list alloc_loop) : list alloc_loop :=
  map (fun av => set (fst av) (snd av)) (combine loops values).

(** [np.searchsorted(positions, keys) + index[0]] *)
Definition ranks (positions : list Q) (keys : list Q) (i0 : nat) : list nat :=
  map (fun r => r + i0) (searchsorted_keys positions keys).

Definition alloc_pinloop (df_rna : frame gene_row) (df_atac : frame element_row)
    (df_chiapet : list loop) : list alloc_loop :=
  let centers := map (fun r => center (snd r)) df_atac in
  let tss := map (fun r => inject_Z (gene_tss (snd r))) df_rna in
  let keys1 := map (fun l => inject_Z (center1 l)) df_chiapet in
  let keys2 := map (fun l => inject_Z (center2 l)) df_chiapet in
  let loops := map (fun l => Build_alloc_loop l 0 0 0 0) df_chiapet in
  let loops :=
    match df_atac with
    | [] => loops
    | (i0, _) :: _ =>
        assign_column with_atac_end (ranks centers keys2 i0)
          (assign_column with_atac_start (ranks centers keys1 i0) loops)
    end in
  match df_rna with
  | [] => loops
  | (i0, _) :: _ =>
      assign_column with_rnaseq_end (ranks tss keys2 i0)
        (assign_column with_rnaseq_start (ranks tss keys1 i0) loops)
  end.

(** ** [p_inloop_dense] *)

(** [np.append(ids, np.max(ids) + 1)].  The maximum of an empty
    [RangeIndex] is nan, written [None]: a key that no lookup matches. *)
Definition id_keys (ids : list nat) : list (option nat) :=
  map Some ids
  ++ [match ids with
      | [] => None
      | _ :: _ => Some (fold_right Nat.max 0 ids + 1)
      end].

(** [dict(zip(keys, np.arange(len(keys)))).get(k)]: the position of the
    last key equal to [k], [None] when there is none. *)
Fixpoint dict_get_from (i : nat) (keys : list (option nat)) (k : nat)
  : option nat :=
  match keys with
  | [] => None
  | key :: rest =>
      match dict_get_from (S i) rest k with
      | Some j => Some j
      | None =>
          match key with
          | Some k' => if k' =? k then Some i else None
          | None => None
          end
      end
  end.

Definition dict_get (keys : list (option nat)) (k : nat) : option nat :=
  dict_get_from 0 keys k.

(** One iteration of the loop over [df_chiapet.iterrows()], on the state
    [(p_inloop, prm_inloop)]. *)
Definition accumulate_step (prm_ids enh_ids : list nat)
    (st : list (list Q) * list Q) (al : alloc_loop)
  : list (list Q) * list Q :=
  let prm_start := dict_get (id_keys prm_ids) (rnaseq_start al) in
  let prm_end := dict_get (id_keys prm_ids) (rnaseq_end al) in
  let enh_start := dict_get (id_keys enh_ids) (atac_start al) in
  let enh_end := dict_get (id_keys enh_ids) (atac_end al) in
  let c := count (source al) in
  let prm_inloop := slice_map prm_start prm_end (fun x => (x + c)%Q) (snd st) in
  let p_inloop :=
    slice_map prm_start prm_end
      (slice_map enh_start enh_end (fun x => (x + c)%Q)) (fst st) in
  (p_inloop, prm_inloop).

Definition accumulate (prm_ids enh_ids : list nat) (df_chiapet : list alloc_loop)
  : list (list Q) * list Q :=
  fold_left (accumulate_step prm_ids enh_ids) df_chiapet
    (zeros2 (length prm_ids) (length enh_ids), zeros (length prm_ids)).

Definition p_inloop_dense (prm_ids enh_ids : list nat)
    (df_chiapet : list alloc_loop) : list (list npfloat) :=
  let st := accumulate prm_ids enh_ids df_chiapet in
  divide_where (fst st) (snd st).

(** ** The script *)

Definition genes_of (pairs_on_chr : frame pair) : frame gene_row :=
  reset_index
    (drop_duplicates gene_row_eqb
       (map (fun ip => (GeneEnsemblID (snd ip), GeneSymbol (snd ip),
                        GeneTSS (snd ip)))
            pairs_on_chr)).

Definition elements_of (pairs_on_chr : frame pair) : frame element_row :=
  reset_index
    (drop_duplicates element_row_eqb
       (map (fun ip => (ElementName (snd ip), ElementStart (snd ip),
                        ElementEnd (snd ip)))
            pairs_on_chr)).

(** [chiapet_on_chr.loc[chiapet_on_chr["loop_length"] < 1e6, :]] *)
Definition short_loops (chiapet_on_chr : list loop) : list loop :=
  filter (fun l => (loop_length l <? 1000000)%Z) chiapet_on_chr.

(** The frame [lookup] of one chromosome. *)
Definition lookup_of (pairs_on_chr : frame pair) (chiapet_on_chr : list loop)
  : DataFrame :=
  let genes_on_chr := genes_of pairs_on_chr in
  let elements_on_chr := elements_of pairs_on_chr in
  let alloc_loops :=
    alloc_pinloop genes_on_chr elements_on_chr (short_loops chiapet_on_chr) in
  let pinloop :=
    transpose (length (index elements_on_chr))
      (p_inloop_dense (index genes_on_chr) (index elements_on_chr) alloc_loops) in
  {| df_index := map element_name (rows elements_on_chr);
     df_columns := map gene_id (rows genes_on_chr);
     df_data := pinloop |}.

(** What one pass of the loop over chromosomes computes before it writes:
    the labels of the rows of the chromosome and the value found for each.
    The pass starts with [print("processing " + chrm + ...)], which
    raises when the name is not a string. *)
Definition annotate (pair_info : frame pair) (chiapet : list loop)
    (chrm : chrom) : result (list nat * list npfloat) :=
  match chrm with
  | ChrInt _ => TypeError
  | ChrStr _ =>
      let pairs_on_chr :=
        filter (fun ip => chrom_eqb (ElementChr (snd ip)) chrm) pair_info in
      let chiapet_on_chr := filter (fun l => chrom_eqb (chr l) chrm) chiapet in
      let lookup := lookup_of pairs_on_chr chiapet_on_chr in
      vals <- mapM (fun ip => loc lookup (ElementName (snd ip))
                                  (GeneEnsemblID (snd ip)))
                   pairs_on_chr ;;
      Ok (index pairs_on_chr, vals)
  end.

(** The body of the loop over chromosomes, on the [Pinloop] column. *)
Definition process_chr (pair_info : frame pair) (chiapet : list loop)
    (chrm : chrom) (Pinloop : list npfloat) : result (list npfloat) :=
  lv <- annotate pair_info chiapet chrm ;;
  Ok (loc_assign Pinloop (fst lv) (snd lv)).

Fixpoint for_each_chr (pair_info : frame pair) (chiapet : list loop)
    (chrms : list chrom) (Pinloop : list npfloat) : result (list npfloat) :=
  match chrms with
  | [] => Ok Pinloop
  | chrm :: rest =>
      col <- process_chr pair_info chiapet chrm Pinloop ;;
      for_each_chr pair_info chiapet rest col
  end.

(** The values of the script: the rows read, each with the [Pinloop] the
    loop over chromosomes leaves for it. *)
Definition pinloop_table (table : list pair) (chiapet : list loop)
  : result (list (pair * npfloat)) :=
  let pair_info := reset_index table in
  let Pinloop := repeat (Finite 0) (length table) in
  col <- for_each_chr pair_info chiapet
           (drop_duplicates chrom_eqb (map ElementChr table)) Pinloop ;;
  Ok (combine table col).

(** ** The script on the frame [pair_info] *)











(** * Vocabulary of the properties *)

(** Ascending order of an array of positions. *)
Definition ascending (a : list Q) : Prop := StronglySorted Qle a.


Definition is_value (v : npfloat) (q : Q) : Prop :=
  match v with
  | Finite q' => (q' == q)%Q
  | NotFinite => False
  end.





Definition has_shape {A : Type} (n m : nat) (p : list (list A)) : Prop :=
  length p = n /\ Forall (fun row => length row = m) p.

(** On one chromosome, an element name stands for one interval and a gene
    identifier for one symbol and one TSS. *)
Definition consistent_labels (table : list pair) : Prop :=
  forall p q : pair,
    In p table -> In q table -> ElementChr p = ElementChr q ->
    (ElementName p = ElementName q ->
     ElementStart p = ElementStart q /\ ElementEnd p = ElementEnd q)
    /\ (GeneEnsemblID p = GeneEnsemblID q ->
        GeneSymbol p = GeneSymbol q /\ GeneTSS p = GeneTSS q).




(** The chromosome name of a row is a string. *)
Definition chr_is_string (p : pair) : Prop :=
  exists s : string, ElementChr p = ChrStr s.



(** ** Concrete tables *)

Definition row_of (c : string) (s e : Z) (n g sym : string) (tss : Z) : pair :=
  {| ElementChr := c; ElementStart := s; ElementEnd := e; ElementName := n;
     GeneEnsemblID := g; GeneSymbol := sym; GeneTSS := tss;
     other_columns := [] |}.

(** Genes at TSS 100, 500, 900 and elements at centers 50, 600, 1000. *)
Definition chr1_genes : frame gene_row :=
  reset_index [("G0", "g0", 100%Z); ("G1", "g1", 500%Z); ("G2", "g2", 900%Z)]%string.

Definition chr1_elements : frame element_row :=
  reset_index [("E0", 40%Z, 60%Z); ("E1", 590%Z, 610%Z); ("E2", 990%Z, 1010%Z)]%string.

Definition loop_80_950 : loop :=
  {| chr := "chr1"; center1 := 80; center2 := 950; loop_length := 870;
     count := 4 |}.


Definition loop_long : loop :=
  {| chr := "chr1"; center1 := 80; center2 := 1000080; loop_length := 1000000;
     count := 7 |}.

Definition table_chr1 : list pair :=
  [row_of "chr1" 40 60 "E0" "G0" "g0" 100;
   row_of "chr1" 590 610 "E1" "G0" "g0" 100;
   row_of "chr1" 990 1010 "E2" "G2" "g2" 900;
   row_of "chr1" 590 610 "E1" "G1" "g1" 500].

(** Two genes met in descending order of TSS, and the same rows in
    ascending order. *)
Definition table_descending : list pair :=
  [row_of "chr1" 590 610 "E1" "G500" "g500" 500;
   row_of "chr1" 590 610 "E1" "G100" "g100" 100].

Definition table_ascending : list pair :=
  [row_of "chr1" 590 610 "E1" "G100" "g100" 100;
   row_of "chr1" 590 610 "E1" "G500" "g500" 500].

Definition loop_300_950 : loop :=
  {| chr := "chr1"; center1 := 300; center2 := 950; loop_length := 650;
     count := 4 |}.

(** One element name on two intervals of the same chromosome. *)
Definition table_two_intervals : list pair :=
  [row_of "chr1" 10 20 "E1" "G1" "g1" 100;
   row_of "chr1" 30 40 "E1" "G1" "g1" 100].

(** Three genes met out of TSS order and two loops that end at the same
    place. *)
Definition genes_unsorted : list gene_row :=
  [("GA", "ga", 100%Z); ("GB", "gb", 300%Z); ("GC", "gc", 200%Z)]%string.

Definition loop_150_600 : loop :=
  {| chr := "chr1"; center1 := 150; center2 := 600; loop_length := 450;
     count := 1 |}.

Definition loop_250_600 : loop :=
  {| chr := "chr1"; center1 := 250; center2 := 600; loop_length := 350;
     count := 1 |}.






(** ** Ranks, weights and the lookup of a chromosome *)


(** Rank [k] lies in the half-open range from [lo] to [hi]. *)
Definition covers (lo hi k : nat) : bool := (lo <=? k) && (k <? hi).

(** The counts of the loops whose gene range covers rank [g], and of those
    whose two ranges cover [g] and [e], added in the order of the catalog. *)
Definition gene_weight (loops : list alloc_loop) (g : nat) : Q :=
  fold_left
    (fun acc al =>
       if covers (rnaseq_start al) (rnaseq_end al) g
       then (acc + count (source al))%Q else acc)
    loops 0%Q.

Definition cell_weight (loops : list alloc_loop) (g e : nat) : Q :=
  fold_left
    (fun acc al =>
       if covers (rnaseq_start al) (rnaseq_end al) g
       then if covers (atac_start al) (atac_end al) e
            then (acc + count (source al))%Q else acc
       else acc)
    loops 0%Q.

Definition in_range (n m : nat) (al : alloc_loop) : Prop :=
  rnaseq_start al <= n /\ rnaseq_end al <= n
  /\ atac_start al <= m /\ atac_end al <= m.

(** The rows and the loops of one chromosome, as the loop over chromosomes
    selects them, and the lookup built from them. *)
Definition rows_on (table : list pair) (chrm : chrom) : frame pair :=
  filter (fun ip => chrom_eqb (ElementChr (snd ip)) chrm) (reset_index table).

Definition loops_on (chiapet : list loop) (chrm : chrom) : list loop :=
  filter (fun l => chrom_eqb (chr l) chrm) chiapet.

Definition lookup_on (table : list pair) (chiapet : list loop) (chrm : chrom)
  : DataFrame :=
  lookup_of (rows_on table chrm) (loops_on chiapet chrm).

(** ** The name of the written file *)

(** [s.split(".")[0]]: the characters before the first dot. *)
Fixpoint before_first_dot (s : string) : string :=
  match s with
  | EmptyString => EmptyString
  | String c rest =>
      if Ascii.eqb c "."%char then EmptyString
      else String c (before_first_dot rest)
  end.

(** [sys.argv[1].split(".")[0] + "_pinloop.tsv.gz"] *)
Definition output_path (argv1 : string) : string :=
  (before_first_dot argv1 ++ "_pinloop.tsv.gz")%string.

Fixpoint has_dot (s : string) : bool :=
  match s with
  | EmptyString => false
  | String c rest => Ascii.eqb c "."%char || has_dot rest
  end.

(** * Properties *)

(** ** The lower-bound search *)

Section LowerBound.

Open Scope Q_scope.

Lemma Qltb_lt (x y : Q) : Qltb x y = true <-> x < y.
Proof.
  unfold Qltb. rewrite negb_true_iff. split.
  - intros H. apply Qnot_le_lt. intros Hle.
    apply Qle_bool_iff in Hle. congruence.
  - intros H. destruct (Qle_bool y x) eqn:E; [|reflexivity].
    apply Qle_bool_iff in E. exfalso. apply (Qlt_not_le _ _ H E).
Qed.

Lemma Qltb_ge (x y : Q) : Qltb x y = false <-> y <= x.
Proof.
  unfold Qltb. rewrite negb_false_iff. apply Qle_bool_iff.
Qed.

Lemma ascending_nth (a : list Q) :
  ascending a ->
  forall i j : nat, (i <= j < length a)%nat -> nth i a 0 <= nth j a 0.
Proof.
  induction 1 as [|x a Hs IH Hx]; intros i j Hij; simpl in Hij.
  - lia.
  - destruct i as [|i], j as [|j]; simpl; try lia.
    + apply Qle_refl.
    + rewrite Forall_forall in Hx. apply Hx, nth_In. lia.
    + apply IH. lia.
Qed.

Lemma bsearch_S (fuel : nat) (a : list Q) (v : Q) (lo hi : nat) :
  bsearch (S fuel) a v lo hi =
  if (lo <? hi)%nat then
    if Qltb (nth (lo + (hi - lo) / 2) a 0) v
    then bsearch fuel a v (lo + (hi - lo) / 2 + 1) hi
    else bsearch fuel a v lo (lo + (hi - lo) / 2)
  else lo.
Proof. reflexivity. Qed.

(** The window invariant of the search: everything left of [lo] is below
    the key, everything from [hi] on is not. *)
Lemma bsearch_window (a : list Q) (v : Q) :
  ascending a ->
  forall (fuel lo hi : nat),
    (lo <= hi <= length a)%nat ->
    (hi - lo <= fuel)%nat ->
    (forall j, (j < lo)%nat -> nth j a 0 < v) ->
    (forall j, (hi <= j < length a)%nat -> v <= nth j a 0) ->
    (lo <= bsearch fuel a v lo hi <= hi)%nat
    /\ (forall j, (j < bsearch fuel a v lo hi)%nat -> nth j a 0 < v)
    /\ (forall j, (bsearch fuel a v lo hi <= j < length a)%nat ->
                  v <= nth j a 0).
Proof.
  intros Hs. induction fuel as [|fuel IH]; intros lo hi Hb Hf Hlo Hhi.
  - simpl. assert (lo = hi) by lia. subst hi. repeat split; auto; lia.
  - rewrite bsearch_S. destruct (Nat.ltb_spec lo hi) as [Hlt|Hge].
    + set (mid := (lo + (hi - lo) / 2)%nat).
      assert (Hmid : (lo <= mid < hi)%nat).
      { unfold mid. split; [lia|].
        assert ((hi - lo) / 2 < hi - lo)%nat by (apply Nat.div_lt; lia).
        lia. }
      destruct (Qltb (nth mid a 0) v) eqn:E.
      * apply Qltb_lt in E.
        destruct (IH (mid + 1)%nat hi) as (Hi & Hl & Hr); try lia.
        { intros j Hj. apply Qle_lt_trans with (nth mid a 0); [|exact E].
          apply ascending_nth; [exact Hs|lia]. }
        { exact Hhi. }
        repeat split; auto; lia.
      * apply Qltb_ge in E.
        destruct (IH lo mid) as (Hi & Hl & Hr); try lia.
        { exact Hlo. }
        { intros j Hj. apply Qle_trans with (nth mid a 0); [exact E|].
          apply ascending_nth; [exact Hs|lia]. }
        repeat split; auto; lia.
    + assert (lo = hi) by lia. subst hi. repeat split; auto; lia.
Qed.

Lemma searchsorted_spec (a : list Q) (v : Q) :
  ascending a ->
  (searchsorted a v <= length a)%nat
  /\ (forall j, (j < searchsorted a v)%nat -> nth j a 0 < v)
  /\ (forall j, (searchsorted a v <= j < length a)%nat -> v <= nth j a 0).
Proof.
  intros Hs. unfold searchsorted.
  assert (H0 : forall j, (j < 0)%nat -> nth j a 0 < v) by (intros j Hj; lia).
  assert (H1 : forall j, (length a <= j < length a)%nat -> v <= nth j a 0)
    by (intros j Hj; lia).
  destruct (bsearch_window a v Hs (length a) 0 (length a)) as (Hi & Hl & Hr);
    auto; try lia.
  repeat split; auto; lia.
Qed.


End LowerBound.

(** ** Searching an array of keys *)

Lemma bsearch_bounds (a : list Q) (v : Q) :
  forall fuel lo hi, lo <= hi -> lo <= bsearch fuel a v lo hi <= hi.
Proof.
  induction fuel as [|fuel IH]; intros lo hi Hle.
  - simpl. lia.
  - rewrite bsearch_S. destruct (Nat.ltb_spec lo hi) as [Hlt|Hge]; [|lia].
    assert (Hd : (hi - lo) / 2 < hi - lo) by (apply Nat.div_lt; lia).
    destruct (Qltb _ v).
    + specialize (IH (lo + (hi - lo) / 2 + 1) hi). lia.
    + specialize (IH lo (lo + (hi - lo) / 2)). lia.
Qed.

Lemma searchsorted_le_length (a : list Q) (v : Q) :
  searchsorted a v <= length a.
Proof. unfold searchsorted. apply bsearch_bounds. lia. Qed.


Lemma search_keys_cons (a : list Q) (key_val : Q) (rest : list Q)
    (min_idx max_idx : nat) (last_key_val : Q) :
  search_keys a (key_val :: rest) min_idx max_idx last_key_val =
  bsearch (length a) a key_val
    (if Qltb last_key_val key_val then min_idx else 0)
    (if Qltb last_key_val key_val then length a
     else if max_idx <? length a then max_idx + 1 else length a)
  :: search_keys a rest
       (bsearch (length a) a key_val
          (if Qltb last_key_val key_val then min_idx else 0)
          (if Qltb last_key_val key_val then length a
           else if max_idx <? length a then max_idx + 1 else length a))
       (bsearch (length a) a key_val
          (if Qltb last_key_val key_val then min_idx else 0)
          (if Qltb last_key_val key_val then length a
           else if max_idx <? length a then max_idx + 1 else length a))
       key_val.
Proof. reflexivity. Qed.

Lemma length_search_keys (a : list Q) (keys : list Q) :
  forall mn mx last, length (search_keys a keys mn mx last) = length keys.
Proof.
  induction keys as [|k keys IH]; intros mn mx last; [reflexivity|].
  rewrite search_keys_cons. simpl. now rewrite IH.
Qed.

Lemma length_searchsorted_keys (a : list Q) (keys : list Q) :
  length (searchsorted_keys a keys) = length keys.
Proof.
  unfold searchsorted_keys. destruct keys as [|k keys]; [reflexivity|].
  apply length_search_keys.
Qed.

(** Whatever the order of the array, every position found lies between 0
    and the length of the array. *)
Lemma search_keys_le (a : list Q) (keys : list Q) :
  forall mn mx last,
    mn <= length a ->
    Forall (fun r => r <= length a) (search_keys a keys mn mx last).
Proof.
  induction keys as [|k keys IH]; intros mn mx last Hmn; [constructor|].
  rewrite search_keys_cons.
  set (lo := if Qltb last k then mn else 0).
  set (hi := if Qltb last k then length a
             else if mx <? length a then mx + 1 else length a).
  assert (Hb : lo <= hi <= length a).
  { unfold lo, hi. destruct (Qltb last k); [lia|].
    destruct (Nat.ltb_spec mx (length a)); lia. }
  pose proof (bsearch_bounds a k (length a) lo hi (proj1 Hb)) as Hr.
  constructor; [lia|]. apply IH. lia.
Qed.

Lemma searchsorted_keys_le (a : list Q) (keys : list Q) :
  Forall (fun r => r <= length a) (searchsorted_keys a keys).
Proof.
  unfold searchsorted_keys. destruct keys as [|k keys]; [constructor|].
  apply search_keys_le. lia.
Qed.


Section AscendingKeys.

Open Scope Q_scope.

Variable a : list Q.
Hypothesis Hs : ascending a.

Lemma lower_bound_unique (v : Q) (i i' : nat) :
  (i <= length a)%nat -> (i' <= length a)%nat ->
  (forall j, (j < i)%nat -> nth j a 0 < v) ->
  (forall j, (i <= j < length a)%nat -> v <= nth j a 0) ->
  (forall j, (j < i')%nat -> nth j a 0 < v) ->
  (forall j, (i' <= j < length a)%nat -> v <= nth j a 0) ->
  i = i'.
Proof.
  intros Hi Hi' Hl Hr Hl' Hr'.
  destruct (Nat.lt_trichotomy i i') as [H|[H|H]]; [exfalso|exact H|exfalso].
  - apply (Qlt_not_le _ _ (Hl' i H)). apply Hr. lia.
  - apply (Qlt_not_le _ _ (Hl i' H)). apply Hr'. lia.
Qed.

(** On an ascending array the window left by the previous key always
    holds the position of the next one: every key gets the position it
    would get alone. *)
Lemma search_keys_ascending (keys : list Q) :
  forall (mn mx : nat) (last : Q),
    (mn <= length a)%nat ->
    (forall j, (j < mn)%nat -> nth j a 0 < last) ->
    (forall j, (mx < j < length a)%nat -> last <= nth j a 0) ->
    search_keys a keys mn mx last = map (searchsorted a) keys.
Proof.
  induction keys as [|k keys IH]; intros mn mx last Hmn Hlo Hhi; [reflexivity|].
  rewrite search_keys_cons.
  set (lo := if Qltb last k then mn else 0%nat).
  set (hi := if Qltb last k then length a
             else if (mx <? length a)%nat then (mx + 1)%nat else length a).
  assert (Hb : (lo <= hi <= length a)%nat
               /\ (forall j, (j < lo)%nat -> nth j a 0 < k)
               /\ (forall j, (hi <= j < length a)%nat -> k <= nth j a 0)).
  { unfold lo, hi. destruct (Qltb last k) eqn:E.
    - apply Qltb_lt in E. split; [lia|]. split.
      + intros j Hj. apply Qlt_trans with last; auto.
      + intros j Hj. lia.
    - apply Qltb_ge in E. destruct (Nat.ltb_spec mx (length a)).
      + split; [lia|]. split; [intros j Hj; lia|].
        intros j Hj. apply Qle_trans with last; [exact E|]. apply Hhi. lia.
      + split; [lia|]. split; intros j Hj; lia. }
  destruct Hb as (Hle & Hl & Hr).
  destruct (bsearch_window a k Hs (length a) lo hi Hle ltac:(lia) Hl Hr)
    as (Hi & Hfl & Hfr).
  destruct (searchsorted_spec a k Hs) as (Hsi & Hsl & Hsr).
  assert (E : bsearch (length a) a k lo hi = searchsorted a k).
  { apply (lower_bound_unique k); auto; lia. }
  rewrite E. simpl. f_equal. apply IH.
  - exact Hsi.
  - exact Hsl.
  - intros j Hj. apply Hsr. lia.
Qed.

Lemma searchsorted_keys_ascending (keys : list Q) :
  searchsorted_keys a keys = map (searchsorted a) keys.
Proof.
  unfold searchsorted_keys. destruct keys as [|k keys]; [reflexivity|].
  apply search_keys_ascending; [lia| |]; intros j Hj; lia.
Qed.

End AscendingKeys.

(** ** Columns of ranks *)

Lemma assign_column_source (set : alloc_loop -> nat -> alloc_loop)
    (vals : list nat) (loops : list alloc_loop) :
  (forall al v, source (set al v) = source al) ->
  length vals = length loops ->
  map source (assign_column set vals loops) = map source loops.
Proof.
  intros Hset. unfold assign_column. revert vals.
  induction loops as [|al loops IH]; intros [|v vals] H; simpl in *;
    try discriminate; [reflexivity|].
  rewrite Hset, IH by lia. reflexivity.
Qed.

Lemma assign_column_Forall (P : alloc_loop -> Prop)
    (set : alloc_loop -> nat -> alloc_loop) (vals : list nat)
    (loops : list alloc_loop) :
  (forall al v, In v vals -> P al -> P (set al v)) ->
  Forall P loops -> Forall P (assign_column set vals loops).
Proof.
  intros Hset Hall. unfold assign_column. apply Forall_forall.
  intros al Hal. apply in_map_iff in Hal. destruct Hal as ([x v] & <- & Hin).
  simpl. rewrite Forall_forall in Hall. apply Hset.
  - eapply in_combine_r. exact Hin.
  - apply Hall. eapply in_combine_l. exact Hin.
Qed.

(** A column computed loop by loop from the catalog. *)
Lemma assign_column_by_source (set : alloc_loop -> nat -> alloc_loop)
    (h : loop -> nat) (loops : list alloc_loop) (df_chiapet : list loop) :
  map source loops = df_chiapet ->
  assign_column set (map h df_chiapet) loops
  = map (fun al => set al (h (source al))) loops.
Proof.
  intros <-. unfold assign_column. rewrite map_map.
  induction loops as [|al loops IH]; simpl; [reflexivity|]. now rewrite IH.
Qed.

Lemma length_ranks (positions keys : list Q) (i0 : nat) :
  length (ranks positions keys i0) = length keys.
Proof. unfold ranks. now rewrite length_map, length_searchsorted_keys. Qed.

Lemma ranks_le (positions keys : list Q) (i0 v : nat) :
  In v (ranks positions keys i0) -> v <= length positions + i0.
Proof.
  unfold ranks. intros H. apply in_map_iff in H. destruct H as (r & <- & Hr).
  pose proof (searchsorted_keys_le positions keys) as Hall.
  rewrite Forall_forall in Hall. specialize (Hall r Hr). lia.
Qed.

(** The ranks of a column when every key gets the position it would get
    alone. *)
Lemma ranks_per_key (positions : list Q) (key : loop -> Q)
    (df_chiapet : list loop) (i0 : nat) :
  searchsorted_keys positions (map key df_chiapet)
  = map (searchsorted positions) (map key df_chiapet) ->
  ranks positions (map key df_chiapet) i0
  = map (fun l => searchsorted positions (key l) + i0) df_chiapet.
Proof. intros H. unfold ranks. now rewrite H, !map_map. Qed.

Lemma initial_loops_source (df_chiapet : list loop) :
  map source (map (fun l => Build_alloc_loop l 0 0 0 0) df_chiapet) = df_chiapet.
Proof. rewrite map_map. apply map_id. Qed.

(** The loops after the element axis has been written. *)
Lemma atac_loops_source (df_atac : frame element_row) (df_chiapet : list loop) :
  map source
    (match df_atac with
     | [] => map (fun l => Build_alloc_loop l 0 0 0 0) df_chiapet
     | (i0, _) :: _ =>
         assign_column with_atac_end
           (ranks (map (fun r => center (snd r)) df_atac)
                  (map (fun l => inject_Z (center2 l)) df_chiapet) i0)
           (assign_column with_atac_start
              (ranks (map (fun r => center (snd r)) df_atac)
                     (map (fun l => inject_Z (center1 l)) df_chiapet) i0)
              (map (fun l => Build_alloc_loop l 0 0 0 0) df_chiapet))
     end)
  = df_chiapet.
Proof.
  destruct df_atac as [|[j0 e] df_atac]; [apply initial_loops_source|].
  rewrite !assign_column_source; try reflexivity.
  - apply initial_loops_source.
  - now rewrite length_ranks, !length_map.
  - rewrite length_ranks. unfold assign_column.
    rewrite !length_map, length_combine, length_map, length_ranks, length_map.
    lia.
Qed.




(** C2.  On an ascending array, the search returns the lowest position
    whose entry is not below the key, the leftmost insertion point: every
    entry before it is below the key and every entry from it on is not.
    It is 0 when no entry is below the key and the length of the array
    when every entry is.  The call of [alloc_pinloop], which hands over
    the anchors of all loops at once, returns that position for each of
    them. *)
Theorem searchsorted_lower_bound (a : list Q) (v : Q) :
  ascending a ->
  searchsorted a v <= length a
  /\ (forall j, j < searchsorted a v -> (nth j a 0 < v)%Q)
  /\ (forall j, searchsorted a v <= j < length a -> (v <= nth j a 0)%Q)
  /\ ((forall x, In x a -> (v <= x)%Q) -> searchsorted a v = 0)
  /\ ((forall x, In x a -> (x < v)%Q) -> searchsorted a v = length a)
  /\ (forall keys, searchsorted_keys a keys = map (searchsorted a) keys).
Proof.
  intros Hs. destruct (searchsorted_spec a v Hs) as (Hi & Hl & Hr).
  repeat split; auto; try (intros keys; apply searchsorted_keys_ascending; exact Hs).
  - intros Hall. destruct (searchsorted a v) as [|i] eqn:E; [reflexivity|].
    exfalso. assert (H0 : (nth 0 a 0 < v)%Q) by (apply Hl; lia).
    apply (Qlt_not_le _ _ H0). apply Hall, nth_In. lia.
  - intros Hall.
    destruct (Nat.eq_dec (searchsorted a v) (length a)) as [E|E]; [exact E|].
    exfalso.
    assert (H0 : (v <= nth (searchsorted a v) a 0)%Q) by (apply Hr; lia).
    apply (Qlt_not_le (nth (searchsorted a v) a 0%Q) v); [|exact H0].
    apply Hall, nth_In. lia.
Qed.

Lemma searchsorted_lower_bound_witness :
  ascending [50; 600; 1000]%Q
  /\ searchsorted [50; 600; 1000]%Q 80%Q <= 3
  /\ (forall j, j < searchsorted [50; 600; 1000]%Q 80%Q ->
                (nth j [50; 600; 1000] 0 < 80)%Q).
Proof.
  assert (Hs : ascending [50; 600; 1000]%Q).
  { repeat constructor; unfold Qle; simpl; lia. }
  split; [exact Hs|].
  split; apply (searchsorted_lower_bound [50; 600; 1000]%Q 80%Q Hs).
Defined.

(** ** Slices *)

Section Slices.

Context {A B : Type}.

Lemma slice_map_from_length (f : A -> A) (a : list A) :
  forall i lo hi, length (slice_map_from i lo hi f a) = length a.
Proof.
  induction a as [|x a IH]; intros i lo hi; simpl; [reflexivity|].
  now rewrite IH.
Qed.


Lemma slice_map_from_Forall (P Q : A -> Prop) (f : A -> A) :
  (forall x, P x -> Q (f x)) -> (forall x, P x -> Q x) ->
  forall a i lo hi, Forall P a -> Forall Q (slice_map_from i lo hi f a).
Proof.
  intros Hf Hid a i lo hi H. revert i.
  induction H as [|x a Hx Ha IH]; intros i; simpl; constructor; auto.
  destruct ((lo <=? i) && (i <? hi)); auto.
Qed.


End Slices.

(** ** The weight invariant of the accumulation *)

Section Accumulation.

Open Scope Q_scope.





End Accumulation.

(** ** Normalisation *)

Lemma divide_where_nth (p : list (list Q)) (t : list Q) :
  forall (g : nat) (row : list Q) (tg : Q),
    nth_error p g = Some row ->
    nth_error t g = Some tg ->
    nth_error (divide_where p t) g =
    Some (map (fun x => if negb (Qeq_bool tg 0)
                        then true_divide x tg
                        else Finite 0) row).
Proof.
  revert t. induction p as [|r p IH]; intros t g row tg Hp Ht.
  - destruct g; discriminate.
  - destruct t as [|t0 t]; [destruct g; discriminate|].
    destruct g as [|g]; simpl in *.
    + now inversion Hp; inversion Ht; subst.
    + exact (IH t g row tg Hp Ht).
Qed.

(** ** Frames, duplicates and labels *)

Section Frames.

Context {A : Type}.

Lemma rows_reset_index (l : list A) : rows (reset_index l) = l.
Proof.
  unfold rows, reset_index. generalize 0 as k.
  induction l as [|x l IH]; intros k; simpl; [reflexivity|].
  now rewrite IH.
Qed.

Lemma index_reset_index (l : list A) :
  index (reset_index l) = seq 0 (length l).
Proof.
  unfold index, reset_index. generalize 0 as k.
  induction l as [|x l IH]; intros k; simpl; [reflexivity|].
  now rewrite IH.
Qed.

Variable eqb : A -> A -> bool.
Hypothesis eqb_eq : forall x y, eqb x y = true <-> x = y.

Lemma existsb_eqb_In (x : A) (seen : list A) :
  existsb (eqb x) seen = true <-> In x seen.
Proof.
  rewrite existsb_exists. split.
  - intros (y & Hy & E). apply eqb_eq in E. now subst.
  - intros H. exists x. split; [exact H|]. now apply eqb_eq.
Qed.

Lemma drop_duplicates_from_In (l : list A) :
  forall seen x,
    In x (drop_duplicates_from eqb seen l) <-> In x l /\ ~ In x seen.
Proof.
  induction l as [|y l IH]; intros seen x; simpl; [tauto|].
  destruct (existsb (eqb y) seen) eqn:E.
  - apply existsb_eqb_In in E. rewrite IH. split.
    + intros [H1 H2]. auto.
    + intros [[->|H1] H2]; [contradiction|auto].
  - assert (Hy : ~ In y seen).
    { intros H. apply existsb_eqb_In in H. congruence. }
    simpl. rewrite IH. simpl. split.
    + intros [->|[H1 H2]]; [auto|]. split; [auto|]. intros H. apply H2. auto.
    + intros [[->|H1] H2]; [auto|].
      destruct (eqb y x) eqn:Eyx.
      * apply eqb_eq in Eyx. auto.
      * right. split; [exact H1|]. intros [->|H]; [|contradiction].
        assert (eqb x x = true) by now apply eqb_eq. congruence.
Qed.

Lemma drop_duplicates_from_NoDup (l : list A) :
  forall seen, NoDup (drop_duplicates_from eqb seen l).
Proof.
  induction l as [|y l IH]; intros seen; simpl; [constructor|].
  destruct (existsb (eqb y) seen); [apply IH|].
  constructor; [|apply IH].
  rewrite drop_duplicates_from_In. simpl. tauto.
Qed.

Lemma drop_duplicates_In (l : list A) (x : A) :
  In x (drop_duplicates eqb l) <-> In x l.
Proof.
  unfold drop_duplicates. rewrite drop_duplicates_from_In. simpl. tauto.
Qed.

Lemma drop_duplicates_NoDup (l : list A) : NoDup (drop_duplicates eqb l).
Proof. apply drop_duplicates_from_NoDup. Qed.

End Frames.

Lemma gene_row_eqb_eq (a b : gene_row) : gene_row_eqb a b = true <-> a = b.
Proof.
  destruct a as [[a1 a2] a3], b as [[b1 b2] b3]. unfold gene_row_eqb; simpl.
  rewrite !andb_true_iff, !String.eqb_eq, Z.eqb_eq.
  split; [intros [[-> ->] ->]; reflexivity|intros H; inversion H; auto].
Qed.

Lemma element_row_eqb_eq (a b : element_row) :
  element_row_eqb a b = true <-> a = b.
Proof.
  destruct a as [[a1 a2] a3], b as [[b1 b2] b3]. unfold element_row_eqb; simpl.
  rewrite !andb_true_iff, String.eqb_eq, !Z.eqb_eq.
  split; [intros [[-> ->] ->]; reflexivity|intros H; inversion H; auto].
Qed.

(** Positions of a label on an axis. *)

Lemma positions_from_absent (label : string) (axis : list string) :
  forall k, ~ In label axis -> positions_from k label axis = [].
Proof.
  induction axis as [|l axis IH]; intros k Hn; simpl; [reflexivity|].
  destruct (String.eqb_spec l label) as [->|Hne].
  - exfalso. apply Hn. now left.
  - apply IH. intros H. apply Hn. now right.
Qed.

Lemma positions_from_present (label : string) (axis : list string) :
  forall k, In label axis -> positions_from k label axis <> [].
Proof.
  induction axis as [|l axis IH]; intros k Hin; simpl; [contradiction|].
  destruct (String.eqb_spec l label) as [->|Hne]; [discriminate|].
  apply IH. destruct Hin as [H|H]; [contradiction|exact H].
Qed.

Lemma positions_from_unique (label : string) (axis : list string) :
  NoDup axis ->
  forall k i, nth_error axis i = Some label ->
              positions_from k label axis = [k + i].
Proof.
  induction 1 as [|l axis Hl Hnd IH]; intros k i Hi.
  - destruct i; discriminate.
  - simpl. destruct i as [|i]; simpl in Hi.
    + inversion Hi; subst l. rewrite String.eqb_refl.
      rewrite positions_from_absent by exact Hl. f_equal. lia.
    + destruct (String.eqb_spec l label) as [->|Hne].
      * exfalso. apply Hl. eapply nth_error_In. exact Hi.
      * rewrite (IH (S k) i Hi). f_equal. lia.
Qed.

(** ** Shapes *)

Lemma zeros2_shape (n m : nat) : has_shape n m (zeros2 n m).
Proof.
  unfold has_shape, zeros2, zeros. split; [apply repeat_length|].
  apply Forall_forall. intros row H. apply repeat_spec in H. subst.
  apply repeat_length.
Qed.

Lemma accumulate_step_shape (prm_ids enh_ids : list nat) (n m : nat)
    (st : list (list Q) * list Q) (al : alloc_loop) :
  has_shape n m (fst st) /\ length (snd st) = n ->
  has_shape n m (fst (accumulate_step prm_ids enh_ids st al))
  /\ length (snd (accumulate_step prm_ids enh_ids st al)) = n.
Proof.
  intros [[Hn Hm] Ht]. unfold accumulate_step, slice_map, has_shape; simpl.
  rewrite !slice_map_from_length. repeat split; auto.
  apply slice_map_from_Forall with (P := fun row => length row = m); auto.
  intros row Hrow. now rewrite slice_map_from_length.
Qed.

Lemma accumulate_shape (prm_ids enh_ids : list nat)
    (df_chiapet : list alloc_loop) :
  has_shape (length prm_ids) (length enh_ids)
            (fst (accumulate prm_ids enh_ids df_chiapet))
  /\ length (snd (accumulate prm_ids enh_ids df_chiapet)) = length prm_ids.
Proof.
  unfold accumulate.
  assert (H0 : has_shape (length prm_ids) (length enh_ids)
                 (fst (zeros2 (length prm_ids) (length enh_ids),
                       zeros (length prm_ids)))
               /\ length (snd (zeros2 (length prm_ids) (length enh_ids),
                               zeros (length prm_ids))) = length prm_ids).
  { split; [apply zeros2_shape|apply repeat_length]. }
  revert H0.
  generalize (zeros2 (length prm_ids) (length enh_ids), zeros (length prm_ids)).
  induction df_chiapet as [|al rest IH]; intros st H0; simpl; [exact H0|].
  apply IH. apply accumulate_step_shape. exact H0.
Qed.

Lemma divide_where_shape (n m : nat) (p : list (list Q)) (t : list Q) :
  has_shape n m p -> length t = n -> has_shape n m (divide_where p t).
Proof.
  intros [Hn Hm] Ht. unfold has_shape, divide_where. split.
  - rewrite length_map, length_combine. lia.
  - apply Forall_forall. intros out Hout. apply in_map_iff in Hout.
    destruct Hout as ([row tg] & <- & Hin). rewrite length_map.
    apply in_combine_l in Hin. rewrite Forall_forall in Hm. now apply Hm.
Qed.

Lemma p_inloop_dense_shape (prm_ids enh_ids : list nat)
    (df_chiapet : list alloc_loop) :
  has_shape (length prm_ids) (length enh_ids)
            (p_inloop_dense prm_ids enh_ids df_chiapet).
Proof.
  unfold p_inloop_dense.
  destruct (accumulate_shape prm_ids enh_ids df_chiapet) as [Hp Ht].
  now apply divide_where_shape.
Qed.

Lemma map_nth_lt {A B : Type} (f : A -> B) (l : list A) (i : nat) (d : A)
    (d' : B) :
  i < length l -> nth i (map f l) d' = f (nth i l d).
Proof.
  intros Hi. rewrite nth_indep with (d' := f d) by now rewrite length_map.
  apply map_nth.
Qed.

Section Transpose.

Context {A : Type}.

Lemma transpose_shape (m : nat) (p : list (list A)) :
  Forall (fun row => length row = m) p ->
  has_shape m (length p) (transpose m p).
Proof.
  induction 1 as [|row p Hrow Hp IH]; simpl.
  - split; [apply repeat_length|]. apply Forall_forall. intros r Hr.
    apply repeat_spec in Hr. now subst.
  - destruct IH as [Hlen Hall]. split.
    + rewrite length_map, length_combine. lia.
    + apply Forall_forall. intros r Hr. apply in_map_iff in Hr.
      destruct Hr as ([x col] & <- & Hin). simpl.
      apply in_combine_r in Hin. rewrite Forall_forall in Hall.
      now rewrite (Hall col Hin).
Qed.

(** Cell [(i, j)] of the transpose is cell [(j, i)] of the matrix. *)
Lemma transpose_nth (m : nat) (p : list (list A)) (d : A) :
  Forall (fun row => length row = m) p ->
  forall i j, i < m -> j < length p ->
    nth j (nth i (transpose m p) []) d = nth i (nth j p []) d.
Proof.
  induction 1 as [|row p Hrow Hp IH]; intros i j Hi Hj; simpl in Hj; [lia|].
  simpl.
  destruct (transpose_shape m p Hp) as [Hlen _].
  rewrite map_nth_lt with (d := (d, [])) by (rewrite length_combine; lia).
  rewrite combine_nth by lia. simpl.
  destruct j as [|j]; [reflexivity|].
  apply IH; lia.
Qed.

Lemma transpose_Forall (P : A -> Prop) (m : nat) (p : list (list A)) :
  Forall (Forall P) p -> Forall (Forall P) (transpose m p).
Proof.
  induction 1 as [|row p Hrow Hp IH]; simpl.
  - apply Forall_forall. intros r Hr. apply repeat_spec in Hr. now subst.
  - apply Forall_forall. intros r Hr. apply in_map_iff in Hr.
    destruct Hr as ([x col] & <- & Hin). simpl. constructor.
    + apply in_combine_l in Hin. rewrite Forall_forall in Hrow. auto.
    + apply in_combine_r in Hin. rewrite Forall_forall in IH. auto.
Qed.

End Transpose.

(** ** The lookup of a pair *)

Lemma positions_from_only (label : string) (axis : list string) :
  forall k e,
    nth_error axis e = Some label ->
    (forall i, nth_error axis i = Some label -> i = e) ->
    positions_from k label axis = [k + e].
Proof.
  induction axis as [|l axis IH]; intros k e He Honly.
  - destruct e; discriminate.
  - simpl. destruct e as [|e]; simpl in He.
    + inversion He; subst l. rewrite String.eqb_refl.
      rewrite positions_from_absent; [f_equal; lia|].
      intros Hin. apply In_nth_error in Hin. destruct Hin as [i Hi].
      specialize (Honly (S i) Hi). discriminate.
    + destruct (String.eqb_spec l label) as [->|Hne].
      * specialize (Honly 0 eq_refl). discriminate.
      * rewrite (IH (S k) e He); [f_equal; lia|].
        intros i Hi. specialize (Honly (S i) Hi). lia.
Qed.

Lemma loc_absent_row (df : DataFrame) (r c : string) :
  ~ In r (df_index df) -> loc df r c = KeyError r.
Proof.
  intros H. unfold loc, positions. now rewrite positions_from_absent.
Qed.

Lemma loc_absent_column (df : DataFrame) (r c : string) :
  In r (df_index df) -> ~ In c (df_columns df) -> loc df r c = KeyError c.
Proof.
  intros Hr Hc. unfold loc, positions.
  rewrite (positions_from_absent c _ 0 Hc).
  pose proof (positions_from_present r (df_index df) 0 Hr) as Hne.
  destruct (positions_from 0 r (df_index df)) as [|i [|i' l]];
    [contradiction|reflexivity|reflexivity].
Qed.

Lemma loc_only (df : DataFrame) (r c : string) (i j : nat) :
  nth_error (df_index df) i = Some r ->
  (forall i', nth_error (df_index df) i' = Some r -> i' = i) ->
  nth_error (df_columns df) j = Some c ->
  (forall j', nth_error (df_columns df) j' = Some c -> j' = j) ->
  loc df r c = Ok (nth j (nth i (df_data df) []) (Finite 0)).
Proof.
  intros Hi Hio Hj Hjo. unfold loc, positions.
  rewrite (positions_from_only r _ 0 i Hi Hio).
  rewrite (positions_from_only c _ 0 j Hj Hjo). reflexivity.
Qed.

(** Every float that [loc] returns is a cell of the frame or the zero
    that fills a cell out of its shape. *)
Lemma loc_Ok_Forall (P : npfloat -> Prop) (df : DataFrame) (r c : string)
    (v : npfloat) :
  P (Finite 0) -> Forall (Forall P) (df_data df) ->
  loc df r c = Ok v -> P v.
Proof.
  intros H0 Hall. unfold loc.
  destruct (positions r (df_index df)) as [|i [|i' li]];
    destruct (positions c (df_columns df)) as [|j [|j' lj]];
    try discriminate.
  intros H. inversion H; subst v; clear H.
  destruct (nth_in_or_default i (df_data df) []) as [Hin|Hd].
  - rewrite Forall_forall in Hall. specialize (Hall _ Hin).
    destruct (nth_in_or_default j (nth i (df_data df) []) (Finite 0)) as [Hin'|Hd'].
    + rewrite Forall_forall in Hall. auto.
    + now rewrite Hd'.
  - rewrite Hd. now destruct j.
Qed.

(** ** The column of the output *)

Section Column.

Context {A B : Type}.

Lemma mapM_Ok_length (f : A -> result B) (l : list A) :
  forall bs, mapM f l = Ok bs -> length bs = length l.
Proof.
  induction l as [|a l IH]; intros bs H; simpl in H.
  - now inversion H.
  - destruct (f a) as [b| | |]; try discriminate. simpl in H.
    destruct (mapM f l) as [bs'| | |]; try discriminate. simpl in H.
    inversion H; subst. simpl. now rewrite (IH bs' eq_refl).
Qed.


Lemma mapM_total (f : A -> result B) (l : list A) :
  (forall a, In a l -> exists b, f a = Ok b) ->
  exists bs, mapM f l = Ok bs.
Proof.
  induction l as [|a l IH]; intros Hf; simpl.
  - now exists [].
  - destruct (Hf a (or_introl eq_refl)) as [b ->]. simpl.
    destruct IH as [bs ->]; [intros a' Hin; apply Hf; now right|].
    simpl. now exists (b :: bs).
Qed.

Lemma set_nth_length (i : nat) (v : A) (col : list A) :
  length (set_nth i v col) = length col.
Proof.
  revert i. induction col as [|x col IH]; intros [|i]; simpl; auto.
Qed.


Lemma loc_assign_length (col : list A) (labels : list nat) (vals : list A) :
  length (loc_assign col labels vals) = length col.
Proof.
  unfold loc_assign. revert col.
  induction (combine labels vals) as [|lv l IH]; intros col; simpl; auto.
  now rewrite IH, set_nth_length.
Qed.


End Column.

(** ** Loop counts through the pipeline *)





Lemma chrom_eqb_eq (a b : chrom) : chrom_eqb a b = true <-> a = b.
Proof.
  destruct a as [s|z], b as [s'|z']; simpl.
  - rewrite String.eqb_eq. split; congruence.
  - split; discriminate.
  - split; discriminate.
  - rewrite Z.eqb_eq. split; congruence.
Qed.

(** A pass over a chromosome that has values to write: the name is a
    string and every lookup returned a float. *)
Lemma annotate_Ok (pair_info : frame pair) (chiapet : list loop)
    (chrm : chrom) (lv : list nat * list npfloat) :
  annotate pair_info chiapet chrm = Ok lv ->
  (exists s : string, chrm = ChrStr s)
  /\ fst lv
     = index (filter (fun ip => chrom_eqb (ElementChr (snd ip)) chrm) pair_info)
  /\ mapM (fun ip =>
             loc (lookup_of
                    (filter (fun ip => chrom_eqb (ElementChr (snd ip)) chrm)
                            pair_info)
                    (filter (fun l => chrom_eqb (chr l) chrm) chiapet))
                 (ElementName (snd ip)) (GeneEnsemblID (snd ip)))
          (filter (fun ip => chrom_eqb (ElementChr (snd ip)) chrm) pair_info)
     = Ok (snd lv).
Proof.
  unfold annotate. destruct chrm as [s|z]; [|discriminate].
  destruct (mapM _ _) as [vals| | |]; simpl; try discriminate.
  intros H. inversion H; subst lv; clear H. simpl. eauto.
Qed.




(** ** Tables whose labels identify one locus *)

Lemma loc_total (df : DataFrame) (r c : string) :
  NoDup (df_index df) -> NoDup (df_columns df) ->
  In r (df_index df) -> In c (df_columns df) ->
  exists v, loc df r c = Ok v.
Proof.
  intros Hni Hnc Hr Hc.
  apply In_nth_error in Hr. destruct Hr as [i Hi].
  apply In_nth_error in Hc. destruct Hc as [j Hj].
  unfold loc, positions.
  rewrite (positions_from_unique r _ Hni 0 i Hi).
  rewrite (positions_from_unique c _ Hnc 0 j Hj). simpl. eauto.
Qed.

Section OneChromosome.

Variable table : list pair.
Variable chrm : chrom.
Hypothesis Hcons : consistent_labels table.

Variable pairs_on_chr : frame pair.
Hypothesis Hsub :
  forall ip, In ip pairs_on_chr ->
             In (snd ip) table /\ ElementChr (snd ip) = chrm.

Lemma elements_of_NoDup :
  NoDup (map element_name (rows (elements_of pairs_on_chr))).
Proof.
  unfold elements_of. rewrite rows_reset_index.
  apply NoDup_map_NoDup_ForallPairs;
    [|apply drop_duplicates_NoDup, element_row_eqb_eq].
  intros x y Hx Hy Hxy.
  apply -> (drop_duplicates_In _ element_row_eqb_eq) in Hx.
  apply -> (drop_duplicates_In _ element_row_eqb_eq) in Hy.
  apply in_map_iff in Hx, Hy.
  destruct Hx as (p & <- & Hp), Hy as (q & <- & Hq).
  destruct (Hsub p Hp) as [Hpt Hpc], (Hsub q Hq) as [Hqt Hqc].
  unfold element_name in Hxy; simpl in Hxy.
  destruct (Hcons (snd p) (snd q) Hpt Hqt) as [He _]; [congruence|].
  destruct (He Hxy) as [-> ->]. now rewrite Hxy.
Qed.

Lemma genes_of_NoDup :
  NoDup (map gene_id (rows (genes_of pairs_on_chr))).
Proof.
  unfold genes_of. rewrite rows_reset_index.
  apply NoDup_map_NoDup_ForallPairs;
    [|apply drop_duplicates_NoDup, gene_row_eqb_eq].
  intros x y Hx Hy Hxy.
  apply -> (drop_duplicates_In _ gene_row_eqb_eq) in Hx.
  apply -> (drop_duplicates_In _ gene_row_eqb_eq) in Hy.
  apply in_map_iff in Hx, Hy.
  destruct Hx as (p & <- & Hp), Hy as (q & <- & Hq).
  destruct (Hsub p Hp) as [Hpt Hpc], (Hsub q Hq) as [Hqt Hqc].
  unfold gene_id in Hxy; simpl in Hxy.
  destruct (Hcons (snd p) (snd q) Hpt Hqt) as [_ Hg]; [congruence|].
  destruct (Hg Hxy) as [-> ->]. now rewrite Hxy.
Qed.

Lemma elements_of_In (ip : nat * pair) :
  In ip pairs_on_chr ->
  In (ElementName (snd ip))
     (map element_name (rows (elements_of pairs_on_chr))).
Proof.
  intros Hin. unfold elements_of. rewrite rows_reset_index.
  apply in_map_iff.
  exists (ElementName (snd ip), ElementStart (snd ip), ElementEnd (snd ip)).
  split; [reflexivity|].
  apply (drop_duplicates_In _ element_row_eqb_eq).
  apply in_map_iff. now exists ip.
Qed.

Lemma genes_of_In (ip : nat * pair) :
  In ip pairs_on_chr ->
  In (GeneEnsemblID (snd ip)) (map gene_id (rows (genes_of pairs_on_chr))).
Proof.
  intros Hin. unfold genes_of. rewrite rows_reset_index.
  apply in_map_iff.
  exists (GeneEnsemblID (snd ip), GeneSymbol (snd ip), GeneTSS (snd ip)).
  split; [reflexivity|].
  apply (drop_duplicates_In _ gene_row_eqb_eq).
  apply in_map_iff. now exists ip.
Qed.

Lemma annotate_total (chiapet_on_chr : list loop) :
  exists vals,
    mapM (fun ip => loc (lookup_of pairs_on_chr chiapet_on_chr)
                        (ElementName (snd ip)) (GeneEnsemblID (snd ip)))
         pairs_on_chr = Ok vals.
Proof.
  apply mapM_total. intros ip Hin. apply loc_total; simpl.
  - apply elements_of_NoDup.
  - apply genes_of_NoDup.
  - now apply elements_of_In.
  - now apply genes_of_In.
Qed.

End OneChromosome.

Lemma reset_index_In {A : Type} (l : list A) (ip : nat * A) :
  In ip (reset_index l) -> In (snd ip) l.
Proof.
  intros H. rewrite <- (rows_reset_index l) at 1.
  unfold rows. apply in_map_iff. now exists ip.
Qed.

(** With consistent labels, the pass over a chromosome whose name is a
    string has a value for every row. *)
Lemma annotate_succeeds (table rows : list pair) (chiapet : list loop)
    (chrm : string) :
  consistent_labels table ->
  (forall p, In p rows -> In p table) ->
  exists lv, annotate (reset_index rows) chiapet chrm = Ok lv.
Proof.
  intros Hcons Hsub. unfold annotate.
  set (pairs := filter _ (reset_index rows)).
  destruct (annotate_total table chrm Hcons pairs) with
    (chiapet_on_chr := filter (fun l => chrom_eqb (chr l) chrm) chiapet)
    as [vals ->].
  - intros ip Hin. apply filter_In in Hin. destruct Hin as [Hin Hchr].
    split; [apply Hsub; now apply reset_index_In|now apply chrom_eqb_eq].
  - simpl. eauto.
Qed.

Lemma process_chr_total (table : list pair) (chiapet : list loop)
    (chrm : string) (col : list npfloat) :
  consistent_labels table ->
  exists col', process_chr (reset_index table) chiapet chrm col = Ok col'.
Proof.
  intros Hcons. unfold process_chr.
  destruct (annotate_succeeds table table chiapet chrm Hcons (fun p H => H))
    as [lv ->].
  simpl. eauto.
Qed.

Lemma for_each_chr_total (table : list pair) (chiapet : list loop)
    (chrms : list chrom) :
  consistent_labels table ->
  Forall (fun c => exists s : string, c = ChrStr s) chrms ->
  forall col,
  exists col', for_each_chr (reset_index table) chiapet chrms col = Ok col'.
Proof.
  intros Hcons Hstr. induction Hstr as [|chrm rest [s ->] Hrest IH];
    intros col; simpl.
  - eauto.
  - destruct (process_chr_total table chiapet s col Hcons) as [col1 ->].
    simpl. apply IH.
Qed.

(** ** The output table *)




(** ** The length filter *)

Lemma filter_filter_comm {A : Type} (f g : A -> bool) (l : list A) :
  filter f (filter g l) = filter g (filter f l).
Proof.
  induction l as [|x l IH]; simpl; [reflexivity|].
  destruct (f x) eqn:Ef, (g x) eqn:Eg; simpl; rewrite ?Ef, ?Eg, IH; reflexivity.
Qed.

Lemma short_loops_idem (chiapet : list loop) :
  short_loops (short_loops chiapet) = short_loops chiapet.
Proof.
  unfold short_loops. induction chiapet as [|l c IH]; simpl; [reflexivity|].
  destruct (loop_length l <? 1000000)%Z eqn:E; simpl; rewrite ?E, IH; reflexivity.
Qed.

Lemma short_loops_drop (c1 c2 : list loop) (l : loop) :
  (1000000 <= loop_length l)%Z ->
  short_loops (c1 ++ l :: c2) = short_loops (c1 ++ c2).
Proof.
  intros H. unfold short_loops. rewrite !filter_app. simpl.
  destruct (Z.ltb_spec (loop_length l) 1000000); [lia|reflexivity].
Qed.

(** The script reads the catalog only through its short loops. *)
Lemma annotate_short (pair_info : frame pair) (c c' : list loop)
    (chrm : chrom) :
  short_loops c = short_loops c' ->
  annotate pair_info c chrm = annotate pair_info c' chrm.
Proof.
  intros H. unfold annotate, lookup_of.
  assert (E : forall x, short_loops (filter (fun l => chrom_eqb (chr l) chrm) x)
                        = filter (fun l => chrom_eqb (chr l) chrm) (short_loops x)).
  { intros x. unfold short_loops. apply filter_filter_comm. }
  destruct chrm as [s|z]; [|reflexivity]. now rewrite !E, H.
Qed.

Lemma process_chr_short (pair_info : frame pair) (c c' : list loop)
    (chrm : chrom) (col : list npfloat) :
  short_loops c = short_loops c' ->
  process_chr pair_info c chrm col = process_chr pair_info c' chrm col.
Proof.
  intros H. unfold process_chr. now rewrite (annotate_short _ c c' chrm H).
Qed.

Lemma for_each_chr_short (pair_info : frame pair) (c c' : list loop)
    (chrms : list chrom) :
  short_loops c = short_loops c' ->
  forall col,
    for_each_chr pair_info c chrms col = for_each_chr pair_info c' chrms col.
Proof.
  intros H. induction chrms as [|chrm rest IH]; intros col; simpl; [reflexivity|].
  rewrite (process_chr_short pair_info c c' chrm col H).
  destruct (process_chr pair_info c' chrm col); simpl; auto.
Qed.

Lemma pinloop_table_short (table : list pair) (c c' : list loop) :
  short_loops c = short_loops c' ->
  pinloop_table table c = pinloop_table table c'.
Proof.
  intros H. unfold pinloop_table.
  now rewrite (for_each_chr_short (reset_index table) c c' _ H).
Qed.

(** C3.  A loop whose [loop_length] is 1,000,000 or more can be put in or
    taken out of the catalog, at any place, without changing the written
    table; and the table is the one computed from the loops shorter than
    1,000,000 alone. *)
Theorem long_loops_excluded (table : list pair) (c1 c2 : list loop) (l : loop) :
  (1000000 <= loop_length l)%Z ->
  pinloop_table table (c1 ++ l :: c2) = pinloop_table table (c1 ++ c2)
  /\ pinloop_table table (c1 ++ l :: c2)
     = pinloop_table table (short_loops (c1 ++ l :: c2))
  /\ ~ In l (short_loops (c1 ++ l :: c2)).
Proof.
  intros H. repeat split.
  - apply pinloop_table_short. now apply short_loops_drop.
  - apply pinloop_table_short. symmetry. apply short_loops_idem.
  - unfold short_loops. rewrite filter_In. intros [_ Hl].
    apply Z.ltb_lt in Hl. lia.
Qed.

Lemma long_loops_excluded_witness :
  pinloop_table table_chr1 ([loop_80_950] ++ loop_long :: [])
  = pinloop_table table_chr1 ([loop_80_950] ++ []).
Proof.
  apply (long_loops_excluded table_chr1 [loop_80_950] [] loop_long).
  vm_compute. discriminate.
Defined.


(** ** The worked scenario *)

(** C1, as the code computes it.  With genes at TSS 100, 500, 900 and
    elements at centers 50, 600, 1000, the loop from 80 to 950 with count
    4 gets the gene range [0, 3) and the element range [1, 2): only the
    element at 600 lies between the anchors.  Column 1 of the matrix
    accumulates 4 in every row and the other columns nothing, every gene
    total is 4, and the normalised rows are 0, 1, 0. *)
Theorem scenario_values :
  map (fun al => (rnaseq_start al, rnaseq_end al, atac_start al, atac_end al))
      (alloc_pinloop chr1_genes chr1_elements [loop_80_950])
  = [(0, 3, 1, 2)]
  /\ accumulate (index chr1_genes) (index chr1_elements)
       (alloc_pinloop chr1_genes chr1_elements [loop_80_950])
     = ([[0; 4; 0]; [0; 4; 0]; [0; 4; 0]]%Q, [4; 4; 4]%Q)
  /\ Forall (fun row => Forall2 is_value row [0; 1; 0]%Q)
       (p_inloop_dense (index chr1_genes) (index chr1_elements)
          (alloc_pinloop chr1_genes chr1_elements [loop_80_950]))
  /\ length (p_inloop_dense (index chr1_genes) (index chr1_elements)
               (alloc_pinloop chr1_genes chr1_elements [loop_80_950])) = 3.
Proof.
  repeat split; try reflexivity.
  vm_compute. repeat constructor.
Qed.

(** The values the scenario is claimed to have are not the ones computed:
    the element range is not [0, 3), the totals are not 12, the cells are
    not 1/3. *)
Lemma scenario_counterexample :
  ~ (map (fun al => (rnaseq_start al, rnaseq_end al, atac_start al, atac_end al))
         (alloc_pinloop chr1_genes chr1_elements [loop_80_950])
     = [(0, 3, 0, 3)])
  /\ ~ Forall (Forall (fun x => (x == 4)%Q))
         (fst (accumulate (index chr1_genes) (index chr1_elements)
                 (alloc_pinloop chr1_genes chr1_elements [loop_80_950])))
  /\ ~ Forall (fun x => (x == 12)%Q)
         (snd (accumulate (index chr1_genes) (index chr1_elements)
                 (alloc_pinloop chr1_genes chr1_elements [loop_80_950])))
  /\ ~ Forall (Forall (fun v => is_value v (1 # 3)))
         (p_inloop_dense (index chr1_genes) (index chr1_elements)
            (alloc_pinloop chr1_genes chr1_elements [loop_80_950])).
Proof.
  repeat split.
  - vm_compute. discriminate.
  - intros H. vm_compute in H. apply Forall_inv in H. apply Forall_inv in H.
    vm_compute in H. discriminate.
  - intros H. vm_compute in H. apply Forall_inv in H.
    vm_compute in H. discriminate.
  - intros H. vm_compute in H. apply Forall_inv in H. apply Forall_inv in H.
    vm_compute in H. discriminate.
Qed.

(** ** Anchors in reverse order *)

Lemma fold_max_seq (n a : nat) :
  0 < n -> fold_right Nat.max 0 (seq a n) = a + n - 1.
Proof.
  revert a. induction n as [|n IH]; intros a Hn; [lia|].
  simpl. destruct n as [|n].
  - simpl. lia.
  - rewrite (IH (S a)) by lia. lia.
Qed.

(** The keys of the dictionary of a [RangeIndex] of [n > 0] labels are
    [0 .. n]. *)
Lemma id_keys_range (n : nat) :
  0 < n -> id_keys (seq 0 n) = map Some (seq 0 (S n)).
Proof.
  intros Hn. unfold id_keys. rewrite seq_S, map_app. f_equal.
  destruct (seq 0 n) eqn:E.
  - destruct n; [lia|discriminate].
  - rewrite <- E, fold_max_seq by exact Hn. simpl. do 2 f_equal. lia.
Qed.

Lemma dict_get_from_range (m : nat) :
  forall i k,
    dict_get_from i (map Some (seq i m)) k =
    if (i <=? k) && (k <? i + m) then Some k else None.
Proof.
  induction m as [|m IH]; intros i k; simpl.
  - destruct (Nat.leb_spec i k), (Nat.ltb_spec k (i + 0)); simpl;
      try reflexivity; lia.
  - rewrite IH.
    destruct (Nat.leb_spec (S i) k), (Nat.ltb_spec k (S i + m)),
      (Nat.leb_spec i k), (Nat.ltb_spec k (i + S m)), (Nat.eqb_spec i k);
      simpl; try reflexivity; try lia; congruence.
Qed.

Lemma dict_get_range (n k : nat) :
  0 < n -> k <= n -> dict_get (id_keys (seq 0 n)) k = Some k.
Proof.
  intros Hn Hk. unfold dict_get. rewrite id_keys_range by exact Hn.
  rewrite dict_get_from_range.
  destruct (Nat.leb_spec 0 k), (Nat.ltb_spec k (0 + S n)); simpl;
    try reflexivity; lia.
Qed.




(** ** The order of the gene and element arrays *)

(** C6, at a table whose genes are met in descending order of TSS.  The
    gene array is the de-duplicated column in the order of the table, it
    is not ascending, and the search over it misses the gene at 500 for a
    loop from 300 to 950: its pair gets 0 where the same rows in
    ascending order get 1. *)
Theorem genes_not_sorted :
  map gene_tss (rows (genes_of (reset_index table_descending))) = [500; 100]%Z
  /\ ~ ascending (map (fun g => inject_Z (gene_tss g))
                      (rows (genes_of (reset_index table_descending))))
  /\ pinloop_table table_descending [loop_300_950]
     = Ok (combine table_descending [Finite 0; Finite 0])
  /\ exists v, pinloop_table table_ascending [loop_300_950]
               = Ok (combine table_ascending [Finite 0; v])
               /\ is_value v 1.
Proof.
  repeat split.
  - intros H. vm_compute in H. inversion H as [|? ? _ H1].
    apply Forall_inv in H1. vm_compute in H1. apply H1. reflexivity.
  - exists (Finite (4 # 4)). split; reflexivity.
Qed.

(** ** The lookup of the pair annotator *)

Lemma nth_error_lt {A : Type} (l : list A) (i : nat) (x : A) :
  nth_error l i = Some x -> i < length l.
Proof. intros H. apply nth_error_Some. now rewrite H. Qed.

(** C7, as the code computes it.  In the lookup of a chromosome, a name
    absent from the element axis or an identifier absent from the gene
    axis raises [KeyError]; a name at exactly one position [e] of the
    element axis with an identifier at exactly one position [g] of the
    gene axis returns cell [(g, e)] of the normalised matrix. *)
Theorem pair_lookup (pairs_on_chr : frame pair) (chiapet_on_chr : list loop)
    (r c : string) :
  (~ In r (df_index (lookup_of pairs_on_chr chiapet_on_chr)) ->
   loc (lookup_of pairs_on_chr chiapet_on_chr) r c = KeyError r)
  /\ (In r (df_index (lookup_of pairs_on_chr chiapet_on_chr)) ->
      ~ In c (df_columns (lookup_of pairs_on_chr chiapet_on_chr)) ->
      loc (lookup_of pairs_on_chr chiapet_on_chr) r c = KeyError c)
  /\ (forall e g : nat,
        nth_error (df_index (lookup_of pairs_on_chr chiapet_on_chr)) e = Some r ->
        (forall e', nth_error (df_index (lookup_of pairs_on_chr chiapet_on_chr)) e'
                    = Some r -> e' = e) ->
        nth_error (df_columns (lookup_of pairs_on_chr chiapet_on_chr)) g = Some c ->
        (forall g', nth_error (df_columns (lookup_of pairs_on_chr chiapet_on_chr)) g'
                    = Some c -> g' = g) ->
        loc (lookup_of pairs_on_chr chiapet_on_chr) r c
        = Ok (nth e
                (nth g
                   (p_inloop_dense (index (genes_of pairs_on_chr))
                      (index (elements_of pairs_on_chr))
                      (alloc_pinloop (genes_of pairs_on_chr)
                         (elements_of pairs_on_chr)
                         (short_loops chiapet_on_chr)))
                   [])
                (Finite 0))).
Proof.
  split; [apply loc_absent_row|]. split; [apply loc_absent_column|].
  intros e g He Heo Hg Hgo.
  rewrite (loc_only _ r c e g He Heo Hg Hgo).
  unfold lookup_of in *; simpl in *. f_equal.
  set (P := p_inloop_dense _ _ _).
  destruct (p_inloop_dense_shape (index (genes_of pairs_on_chr))
              (index (elements_of pairs_on_chr))
              (alloc_pinloop (genes_of pairs_on_chr) (elements_of pairs_on_chr)
                 (short_loops chiapet_on_chr))) as [Hn Hm].
  fold P in Hn, Hm.
  assert (He' : e < length (index (elements_of pairs_on_chr))).
  { unfold index. rewrite length_map.
    apply nth_error_lt in He. unfold rows in He.
    now rewrite !length_map in He. }
  assert (Hg' : g < length P).
  { rewrite Hn. unfold index. rewrite length_map.
    apply nth_error_lt in Hg. unfold rows in Hg.
    now rewrite !length_map in Hg. }
  apply transpose_nth; assumption.
Qed.

Lemma pair_lookup_witness :
  loc (lookup_of (reset_index table_chr1) [loop_80_950]) "E1" "G0"
  = Ok (Finite (4 # 4))
  /\ loc (lookup_of (reset_index table_chr1) [loop_80_950]) "E9" "G0"
     = KeyError "E9"%string.
Proof.
  destruct (pair_lookup (reset_index table_chr1) [loop_80_950] "E1" "G0")
    as (_ & _ & H).
  destruct (pair_lookup (reset_index table_chr1) [loop_80_950] "E9" "G0")
    as (Habs & _ & _).
  split.
  - rewrite (H 1 0); [reflexivity|reflexivity| |reflexivity|].
    + intros [|[|[|[|e']]]] He; vm_compute in He; try discriminate; reflexivity.
    + intros [|[|[|[|g']]]] Hg; vm_compute in Hg; try discriminate; reflexivity.
  - apply Habs. vm_compute. intros [H0|[H0|[H0|[]]]]; discriminate.
Defined.

(** A name that is present on the element axis, with an identifier that
    is present on the gene axis, and a lookup that returns no float: the
    name labels two rows of the lookup and the script stops. *)
Lemma pair_lookup_counterexample :
  In "E1"%string (df_index (lookup_of (reset_index table_two_intervals) []))
  /\ In "G1"%string (df_columns (lookup_of (reset_index table_two_intervals) []))
  /\ loc (lookup_of (reset_index table_two_intervals) []) "E1" "G1"
     = NotScalar "E1"
  /\ pinloop_table table_two_intervals [] = NotScalar "E1".
Proof.
  repeat split; vm_compute; auto.
Qed.

(** ** A chromosome without genes or without elements *)

Lemma shape_zero_rows {A : Type} (m : nat) (p : list (list A)) :
  has_shape 0 m p -> p = [].
Proof. intros [H _]. now destruct p. Qed.

Lemma shape_zero_columns {A : Type} (n : nat) (p : list (list A)) :
  has_shape n 0 p -> p = repeat [] n.
Proof.
  intros [Hn Hm]. subst n. induction Hm as [|row p Hrow Hp IH]; simpl.
  - reflexivity.
  - destruct row; [|discriminate]. now rewrite <- IH.
Qed.

(** C8.  Without genes, [alloc_pinloop] leaves [rnaseq_start] and
    [rnaseq_end] of every loop at 0 and the matrix, which has no row,
    stays as it was initialised; without elements, [atac_start] and
    [atac_end] stay at 0 and the matrix, which has no column, stays as it
    was initialised.  Both cases return a result: the functions of the
    pipeline return a value on every input and the annotation of a
    chromosome without pairs returns the column unchanged. *)
Theorem empty_axis (df_rna : frame gene_row) (df_atac : frame element_row)
    (df_chiapet : list loop) (prm_ids enh_ids : list nat) :
  (Forall (fun al => rnaseq_start al = 0 /\ rnaseq_end al = 0)
          (alloc_pinloop [] df_atac df_chiapet)
   /\ accumulate [] enh_ids (alloc_pinloop [] df_atac df_chiapet) = ([], [])
   /\ p_inloop_dense [] enh_ids (alloc_pinloop [] df_atac df_chiapet) = [])
  /\ (Forall (fun al => atac_start al = 0 /\ atac_end al = 0)
             (alloc_pinloop df_rna [] df_chiapet)
      /\ fst (accumulate prm_ids [] (alloc_pinloop df_rna [] df_chiapet))
         = zeros2 (length prm_ids) 0
      /\ p_inloop_dense prm_ids [] (alloc_pinloop df_rna [] df_chiapet)
         = repeat [] (length prm_ids))
  /\ (forall chiapet (chrm : string) Pinloop,
        process_chr [] chiapet chrm Pinloop = Ok Pinloop).
Proof.
  assert (H0 : forall P : alloc_loop -> Prop,
             (forall l, P (Build_alloc_loop l 0 0 0 0)) ->
             Forall P (map (fun l => Build_alloc_loop l 0 0 0 0) df_chiapet)).
  { intros P HP. rewrite Forall_map. apply Forall_forall. intros l _. apply HP. }
  split; [|split].
  - split; [|split].
    + unfold alloc_pinloop.
      destruct df_atac as [|[j0 e] df_atac].
      * apply H0; auto.
      * repeat apply assign_column_Forall; try (intros al v _ Hal; exact Hal).
        apply H0; auto.
    + destruct (accumulate_shape [] enh_ids (alloc_pinloop [] df_atac df_chiapet))
        as [Hp Ht].
      apply shape_zero_rows in Hp. simpl in Ht.
      destruct (accumulate [] enh_ids _) as [p t]; simpl in *.
      subst p. now destruct t.
    + exact (shape_zero_rows _ _ (p_inloop_dense_shape [] enh_ids _)).
  - split; [|split].
    + unfold alloc_pinloop.
      destruct df_rna as [|[i0 g] df_rna].
      * apply H0; auto.
      * repeat apply assign_column_Forall; try (intros al v _ Hal; exact Hal).
        apply H0; auto.
    + destruct (accumulate_shape prm_ids [] (alloc_pinloop df_rna [] df_chiapet))
        as [Hp _].
      now apply shape_zero_columns in Hp.
    + exact (shape_zero_columns _ _ (p_inloop_dense_shape prm_ids [] _)).
  - reflexivity.
Qed.


(** * Further properties of the script *)

(** ** Ranks stay on the axis *)

Lemma length_reset_index {A : Type} (l : list A) :
  length (reset_index l) = length l.
Proof. unfold reset_index. rewrite length_combine, length_seq. lia. Qed.

Lemma reset_index_head {A : Type} (l : list A) (i0 : nat) (x : A)
    (df : frame A) :
  reset_index l = (i0, x) :: df -> i0 = 0.
Proof. destruct l; [discriminate|]. intros H. now inversion H. Qed.

Lemma alloc_pinloop_in_range (genes : list gene_row)
    (elements : list element_row) (df_chiapet : list loop) :
  Forall (in_range (length genes) (length elements))
         (alloc_pinloop (reset_index genes) (reset_index elements) df_chiapet).
Proof.
  unfold alloc_pinloop.
  assert (H0 : Forall (in_range (length genes) (length elements))
                 (map (fun l => Build_alloc_loop l 0 0 0 0) df_chiapet)).
  { rewrite Forall_map. apply Forall_forall. intros l _.
    unfold in_range; simpl. lia. }
  assert (Ha : Forall (in_range (length genes) (length elements))
                 match reset_index elements with
                 | [] => map (fun l => Build_alloc_loop l 0 0 0 0) df_chiapet
                 | (i0, _) :: _ =>
                     assign_column with_atac_end
                       (ranks (map (fun r => center (snd r)) (reset_index elements))
                          (map (fun l => inject_Z (center2 l)) df_chiapet) i0)
                       (assign_column with_atac_start
                          (ranks (map (fun r => center (snd r))
                                      (reset_index elements))
                             (map (fun l => inject_Z (center1 l)) df_chiapet) i0)
                          (map (fun l => Build_alloc_loop l 0 0 0 0) df_chiapet))
                 end).
  { pose proof (length_reset_index elements) as HL.
    destruct (reset_index elements) as [|[j0 e] df] eqn:E; [exact H0|].
    apply reset_index_head in E. subst j0.
    repeat apply assign_column_Forall; try exact H0;
      intros al v Hv (H1 & H2 & H3 & H4); apply ranks_le in Hv;
      rewrite length_map in Hv; unfold in_range; simpl; repeat split; lia. }
  pose proof (length_reset_index genes) as HL.
  destruct (reset_index genes) as [|[i0 g] df] eqn:E; [exact Ha|].
  apply reset_index_head in E. subst i0.
  repeat apply assign_column_Forall; try exact Ha;
    intros al v Hv (H1 & H2 & H3 & H4); apply ranks_le in Hv;
    rewrite length_map in Hv; unfold in_range; simpl; repeat split; lia.
Qed.

(** ** The accumulated weights in closed form *)

Lemma slice_map_from_nth_error {A : Type} (f : A -> A) (a : list A) :
  forall i lo hi g,
    nth_error (slice_map_from i lo hi f a) g =
    option_map (fun x => if covers lo hi (i + g) then f x else x)
               (nth_error a g).
Proof.
  induction a as [|x a IH]; intros i lo hi g.
  - destruct g; reflexivity.
  - destruct g as [|g]; simpl.
    + rewrite Nat.add_0_r. reflexivity.
    + rewrite IH. now rewrite Nat.add_succ_r.
Qed.

Section ClosedForm.

Variables n m : nat.
Variables g e : nat.
Hypothesis Hg : g < n.
Hypothesis He : e < m.

Let stepT (acc : Q) (al : alloc_loop) : Q :=
  if covers (rnaseq_start al) (rnaseq_end al) g
  then (acc + count (source al))%Q else acc.

Let stepC (acc : Q) (al : alloc_loop) : Q :=
  if covers (rnaseq_start al) (rnaseq_end al) g
  then if covers (atac_start al) (atac_end al) e
       then (acc + count (source al))%Q else acc
  else acc.

Lemma accumulate_step_at (st : list (list Q) * list Q) (al : alloc_loop)
    (t x : Q) (row : list Q) :
  in_range n m al ->
  nth_error (snd st) g = Some t ->
  nth_error (fst st) g = Some row ->
  nth_error row e = Some x ->
  nth_error (snd (accumulate_step (seq 0 n) (seq 0 m) st al)) g
  = Some (stepT t al)
  /\ exists row',
       nth_error (fst (accumulate_step (seq 0 n) (seq 0 m) st al)) g = Some row'
       /\ nth_error row' e = Some (stepC x al).
Proof.
  intros (Hrs & Hre & Has & Hae) Ht Hrow Hx.
  unfold accumulate_step, stepT, stepC; cbn [fst snd].
  rewrite !dict_get_range by lia. unfold slice_map.
  rewrite !slice_map_from_nth_error, Ht, Hrow; cbn [option_map Nat.add].
  split; [reflexivity|].
  destruct (covers (rnaseq_start al) (rnaseq_end al) g).
  - eexists. split; [reflexivity|].
    rewrite slice_map_from_nth_error, Hx. reflexivity.
  - exists row. split; [reflexivity|exact Hx].
Qed.

Lemma accumulate_fold_at (loops : list alloc_loop) :
  Forall (in_range n m) loops ->
  forall (st : list (list Q) * list Q) (t x : Q) (row : list Q),
    nth_error (snd st) g = Some t ->
    nth_error (fst st) g = Some row ->
    nth_error row e = Some x ->
    nth_error (snd (fold_left (accumulate_step (seq 0 n) (seq 0 m)) loops st)) g
    = Some (fold_left stepT loops t)
    /\ exists row',
         nth_error (fst (fold_left (accumulate_step (seq 0 n) (seq 0 m)) loops st)) g
         = Some row'
         /\ nth_error row' e = Some (fold_left stepC loops x).
Proof.
  induction 1 as [|al loops Hal Hloops IH]; intros st t x row Ht Hrow Hx; simpl.
  - split; [exact Ht|]. now exists row.
  - destruct (accumulate_step_at st al t x row Hal Ht Hrow Hx)
      as (Ht' & row' & Hrow' & Hx').
    exact (IH _ _ _ _ Ht' Hrow' Hx').
Qed.

Lemma accumulate_at (loops : list alloc_loop) :
  Forall (in_range n m) loops ->
  nth_error (snd (accumulate (seq 0 n) (seq 0 m) loops)) g
  = Some (gene_weight loops g)
  /\ exists row,
       nth_error (fst (accumulate (seq 0 n) (seq 0 m) loops)) g = Some row
       /\ nth_error row e = Some (cell_weight loops g e).
Proof.
  intros Hin. unfold accumulate. rewrite !length_seq.
  apply (accumulate_fold_at loops Hin _ 0%Q 0%Q (zeros m)).
  - unfold zeros. now apply nth_error_repeat.
  - unfold zeros2. now apply nth_error_repeat.
  - unfold zeros. now apply nth_error_repeat.
Qed.

End ClosedForm.

(** The value of a normalised cell: zero for a gene without weight, the
    share of the cell in the weight of its gene otherwise. *)
Lemma p_inloop_dense_at (n m g e : nat) (loops : list alloc_loop) :
  g < n -> e < m ->
  Forall (in_range n m) loops ->
  exists row,
    nth_error (p_inloop_dense (seq 0 n) (seq 0 m) loops) g = Some row
    /\ nth_error row e =
       Some (if Qeq_bool (gene_weight loops g) 0
             then Finite 0
             else Finite (cell_weight loops g e / gene_weight loops g)).
Proof.
  intros Hg He Hin.
  destruct (accumulate_at n m g e Hg He loops Hin) as (Ht & row & Hrow & Hx).
  unfold p_inloop_dense.
  rewrite (divide_where_nth _ _ g row _ Hrow Ht).
  eexists. split; [reflexivity|].
  rewrite nth_error_map, Hx. cbn [option_map]. unfold true_divide.
  destruct (Qeq_bool (gene_weight loops g) 0); reflexivity.
Qed.

(** ** Ranges as intervals of positions *)

Lemma searchsorted_between (a : list Q) (v w : Q) (j : nat) :
  ascending a -> j < length a ->
  (searchsorted a v <= j < searchsorted a w
   <-> (v <= nth j a 0 /\ nth j a 0 < w)%Q).
Proof.
  intros Hs Hj.
  destruct (searchsorted_spec a v Hs) as (_ & Hvl & Hvr).
  destruct (searchsorted_spec a w Hs) as (_ & Hwl & Hwr).
  split.
  - intros [H1 H2]. split; [apply Hvr; lia|apply Hwl; lia].
  - intros [H1 H2]. split.
    + destruct (Nat.le_gt_cases (searchsorted a v) j) as [H|H]; [exact H|].
      exfalso. apply (Qlt_not_le _ _ (Hvl j H)). exact H1.
    + destruct (Nat.le_gt_cases (searchsorted a w) j) as [H|H]; [|exact H].
      exfalso. apply (Qlt_not_le _ _ H2). apply Hwr. lia.
Qed.

Lemma gene_weight_uncovered (loops : list alloc_loop) (g : nat) :
  (forall al, In al loops ->
              covers (rnaseq_start al) (rnaseq_end al) g = false) ->
  gene_weight loops g = 0%Q.
Proof.
  unfold gene_weight. generalize 0%Q as acc.
  induction loops as [|al loops IH]; intros acc H; simpl; [reflexivity|].
  rewrite (H al (or_introl eq_refl)). apply IH.
  intros al' Hin. apply H. now right.
Qed.

(** The total of a gene, whatever the element axis. *)
Lemma accumulate_total_at (n m g : nat) (enh_ids : list nat)
    (loops : list alloc_loop) :
  g < n ->
  Forall (in_range n m) loops ->
  nth_error (snd (accumulate (seq 0 n) enh_ids loops)) g
  = Some (gene_weight loops g).
Proof.
  intros Hg Hin. unfold accumulate, gene_weight. rewrite length_seq.
  assert (H0 : nth_error (snd (zeros2 n (length enh_ids), zeros n)) g = Some 0%Q)
    by (unfold zeros; now apply nth_error_repeat).
  revert H0. generalize (zeros2 n (length enh_ids), zeros n) as st.
  generalize 0%Q as t.
  induction Hin as [|al ls Hal Hls IH]; intros t st Hst; cbn [fold_left];
    [exact Hst|].
  apply IH. destruct Hal as (H1 & H2 & _).
  unfold accumulate_step; cbn [fst snd].
  rewrite !dict_get_range by lia. unfold slice_map.
  rewrite slice_map_from_nth_error, Hst. reflexivity.
Qed.

(** C4.  In the matrix [p_inloop_dense] returns, the row of every gene
    rank [g] is the accumulated row divided cell by cell by the gene's
    total when the total is positive, and is all zero when the total is
    zero; no cell of it is nan or infinite.  In the pipeline the total of
    a gene is the sum of the counts of the loops whose gene range covers
    it, so a gene that no loop covers, or whose loops weigh nothing, has
    probability 0 for every element. *)
Theorem normalize_row (prm_ids enh_ids : list nat)
    (df_chiapet : list alloc_loop) (g : nat) :
  g < length prm_ids ->
  (exists (row : list Q) (tg : Q) (out : list npfloat),
     nth_error (fst (accumulate prm_ids enh_ids df_chiapet)) g = Some row
     /\ nth_error (snd (accumulate prm_ids enh_ids df_chiapet)) g = Some tg
     /\ nth_error (p_inloop_dense prm_ids enh_ids df_chiapet) g = Some out
     /\ length out = length enh_ids
     /\ ((0 < tg)%Q -> out = map (fun x => Finite (x / tg)) row)
     /\ ((tg == 0)%Q -> out = repeat (Finite 0) (length enh_ids))
     /\ Forall (fun v => v <> NotFinite) out)
  /\ (forall (genes : list gene_row) (elements : list element_row)
             (catalog : list loop),
        prm_ids = index (reset_index genes) ->
        enh_ids = index (reset_index elements) ->
        df_chiapet
        = alloc_pinloop (reset_index genes) (reset_index elements) catalog ->
        nth_error (snd (accumulate prm_ids enh_ids df_chiapet)) g
        = Some (gene_weight df_chiapet g)
        /\ ((gene_weight df_chiapet g == 0)%Q ->
            nth_error (p_inloop_dense prm_ids enh_ids df_chiapet) g
            = Some (repeat (Finite 0) (length elements)))
        /\ ((forall al, In al df_chiapet ->
                        covers (rnaseq_start al) (rnaseq_end al) g = false) ->
            nth_error (p_inloop_dense prm_ids enh_ids df_chiapet) g
            = Some (repeat (Finite 0) (length elements)))).
Proof.
  intros Hg.
  destruct (accumulate_shape prm_ids enh_ids df_chiapet) as [[Hn Hm] Ht].
  destruct (nth_error (fst (accumulate prm_ids enh_ids df_chiapet)) g)
    as [row|] eqn:Hrow;
    [|apply nth_error_None in Hrow; lia].
  destruct (nth_error (snd (accumulate prm_ids enh_ids df_chiapet)) g)
    as [tg|] eqn:Htg;
    [|apply nth_error_None in Htg; lia].
  assert (Hlen : length row = length enh_ids).
  { rewrite Forall_forall in Hm. apply Hm. eapply nth_error_In. exact Hrow. }
  assert (Hout : nth_error (p_inloop_dense prm_ids enh_ids df_chiapet) g
                 = Some (map (fun x => if negb (Qeq_bool tg 0)
                                       then true_divide x tg
                                       else Finite 0) row)).
  { unfold p_inloop_dense. exact (divide_where_nth _ _ g row tg Hrow Htg). }
  assert (Hzero : (tg == 0)%Q ->
                  map (fun x => if negb (Qeq_bool tg 0)
                                then true_divide x tg
                                else Finite 0) row
                  = repeat (Finite 0) (length enh_ids)).
  { intros Hz. apply Qeq_bool_iff in Hz. rewrite Hz, <- Hlen. simpl.
    clear. induction row as [|x row IH]; simpl; [reflexivity|]. now rewrite IH. }
  split.
  - exists row, tg. eexists. split; [reflexivity|]. split; [reflexivity|].
    split; [exact Hout|]. split; [now rewrite length_map|].
    split; [|split; [exact Hzero|]].
    + intros Hpos. unfold true_divide.
      destruct (Qeq_bool tg 0) eqn:E; [|reflexivity].
      apply Qeq_bool_iff in E. rewrite E in Hpos.
      exfalso. exact (Qlt_irrefl 0 Hpos).
    + apply Forall_forall. intros v Hv. apply in_map_iff in Hv.
      destruct Hv as (x & <- & _). unfold true_divide.
      destruct (Qeq_bool tg 0); simpl; discriminate.
  - intros genes elements catalog Hp He Hdf.
    assert (Hin : Forall (in_range (length genes) (length elements)) df_chiapet)
      by (rewrite Hdf; apply alloc_pinloop_in_range).
    assert (Hw : tg = gene_weight df_chiapet g).
    { rewrite Hp, index_reset_index in Htg, Hg. rewrite length_seq in Hg.
      rewrite (accumulate_total_at _ (length elements) g enh_ids _ Hg Hin)
        in Htg.
      now inversion Htg. }
    rewrite Hout, <- Hw. split; [reflexivity|].
    assert (Hel : length enh_ids = length elements)
      by (rewrite He, index_reset_index; apply length_seq).
    split.
    + intros Hz. now rewrite (Hzero Hz), Hel.
    + intros Hcov. rewrite Hzero, Hel; [reflexivity|].
      rewrite Hw, (gene_weight_uncovered _ _ Hcov). reflexivity.
Qed.

Lemma normalize_row_witness :
  nth_error
    (p_inloop_dense (index chr1_genes) (index chr1_elements)
       (alloc_pinloop chr1_genes chr1_elements [loop_300_950]))
    0
  = Some (repeat (Finite 0) 3).
Proof.
  destruct (normalize_row (index chr1_genes) (index chr1_elements)
              (alloc_pinloop chr1_genes chr1_elements [loop_300_950]) 0)
    as [_ H]; [simpl; lia|].
  destruct (H [("G0", "g0", 100%Z); ("G1", "g1", 500%Z); ("G2", "g2", 900%Z)]%string
              [("E0", 40%Z, 60%Z); ("E1", 590%Z, 610%Z); ("E2", 990%Z, 1010%Z)]%string
              [loop_300_950] eq_refl eq_refl eq_refl) as (_ & _ & Hcov).
  apply Hcov. intros al Hal. vm_compute in Hal.
  destruct Hal as [<-|[]]. reflexivity.
Defined.

Lemma covers_iff (lo hi k : nat) : covers lo hi k = true <-> lo <= k < hi.
Proof.
  unfold covers. rewrite andb_true_iff, Nat.leb_le, Nat.ltb_lt. tauto.
Qed.

(** ** Assignment of the column by labels *)

Section Assign.

Context {A : Type}.

Lemma set_nth_same (i : nat) (v : A) (col : list A) :
  i < length col -> nth_error (set_nth i v col) i = Some v.
Proof.
  revert i. induction col as [|x col IH]; intros [|i] H; simpl in *;
    try lia; [reflexivity|]. apply IH. lia.
Qed.

Lemma set_nth_other (i j : nat) (v : A) (col : list A) :
  i <> j -> nth_error (set_nth i v col) j = nth_error col j.
Proof.
  revert i j. induction col as [|x col IH]; intros [|i] [|j] H; simpl;
    try reflexivity; try lia. apply IH. lia.
Qed.

Lemma assign_fold_other (lvs : list (nat * A)) :
  forall (col : list A) (j : nat),
    ~ In j (map fst lvs) ->
    nth_error (fold_left (fun c lv => set_nth (fst lv) (snd lv) c) lvs col) j
    = nth_error col j.
Proof.
  induction lvs as [|[l v] lvs IH]; intros col j Hj; simpl in *; [reflexivity|].
  rewrite IH by tauto. apply set_nth_other. tauto.
Qed.

Lemma assign_fold_same (lvs : list (nat * A)) :
  NoDup (map fst lvs) ->
  forall (col : list A) (j : nat) (v : A),
    In (j, v) lvs -> j < length col ->
    nth_error (fold_left (fun c lv => set_nth (fst lv) (snd lv) c) lvs col) j
    = Some v.
Proof.
  induction lvs as [|[l w] lvs IH]; intros Hnd col j v Hin Hj; simpl in *.
  - contradiction.
  - inversion Hnd as [|? ? Hl Hnd']; subst. destruct Hin as [E|Hin].
    + inversion E; subst. rewrite assign_fold_other by exact Hl.
      now apply set_nth_same.
    + apply IH; [exact Hnd'|exact Hin|]. now rewrite set_nth_length.
Qed.

End Assign.

(** ** The cell written for a row *)

Lemma In_combine_seq {A : Type} (l : list A) :
  forall (k i : nat) (x : A),
    In (i, x) (combine (seq k (length l)) l)
    <-> k <= i /\ nth_error l (i - k) = Some x.
Proof.
  induction l as [|y l IH]; intros k i x; simpl.
  - split; [contradiction|]. intros [_ H]. destruct (i - k); discriminate.
  - rewrite IH. split.
    + intros [E|[Hk Hn]].
      * inversion E; subst. rewrite Nat.sub_diag. split; [lia|reflexivity].
      * split; [lia|]. replace (i - k) with (S (i - S k)) by lia. exact Hn.
    + intros [Hk Hn]. destruct (Nat.eq_dec i k) as [->|Hne].
      * rewrite Nat.sub_diag in Hn. simpl in Hn. inversion Hn. now left.
      * right. split; [lia|].
        replace (i - k) with (S (i - S k)) in Hn by lia. exact Hn.
Qed.

Lemma In_reset_index {A : Type} (l : list A) (i : nat) (x : A) :
  In (i, x) (reset_index l) <-> nth_error l i = Some x.
Proof.
  unfold reset_index. rewrite In_combine_seq, Nat.sub_0_r.
  split; [tauto|]. intros H. split; [lia|exact H].
Qed.

Lemma NoDup_index_reset {A : Type} (l : list A) :
  NoDup (map fst (reset_index l)).
Proof.
  fold (index (reset_index l)). rewrite index_reset_index. apply seq_NoDup.
Qed.

Lemma NoDup_map_fst_filter {A B : Type} (f : A * B -> bool) (l : list (A * B)) :
  NoDup (map fst l) -> NoDup (map fst (filter f l)).
Proof.
  induction l as [|x l IH]; intros H; simpl; [constructor|].
  inversion H as [|? ? Hx Hl]; subst.
  destruct (f x); simpl; [|now apply IH]. constructor; [|now apply IH].
  intros Hin. apply Hx. apply in_map_iff in Hin.
  destruct Hin as (y & Ey & Hy). apply filter_In in Hy.
  apply in_map_iff. exists y. tauto.
Qed.

Lemma NoDup_map_fst_combine {A B : Type} (l : list A) (l' : list B) :
  NoDup l -> NoDup (map fst (combine l l')).
Proof.
  intros H. revert l'. induction H as [|x l Hx Hl IH]; intros [|y l']; simpl;
    try constructor; [|apply IH].
  intros Hin. apply Hx. apply in_map_iff in Hin.
  destruct Hin as ([a b] & Ea & Hab). simpl in Ea. subst a.
  now apply in_combine_l in Hab.
Qed.

Lemma mapM_Ok_In {A B : Type} (f : A -> result B) (l : list A) :
  forall bs,
    mapM f l = Ok bs ->
    forall a, In a l -> exists b, f a = Ok b /\ In (a, b) (combine l bs).
Proof.
  induction l as [|x l IH]; intros bs H a Hin; [contradiction|].
  simpl in H. destruct (f x) as [b| | |] eqn:E; try discriminate. simpl in H.
  destruct (mapM f l) as [bs'| | |]; try discriminate. simpl in H.
  inversion H; subst bs; clear H. destruct Hin as [->|Hin].
  - exists b. split; [exact E|now left].
  - destruct (IH bs' eq_refl a Hin) as (b' & Hb' & Hc).
    exists b'. split; [exact Hb'|now right].
Qed.

Lemma In_combine_map_fst {A B C : Type} (l : list (A * B)) (vs : list C)
    (a : A * B) (v : C) :
  In (a, v) (combine l vs) -> In (fst a, v) (combine (map fst l) vs).
Proof.
  revert vs. induction l as [|x l IH]; intros [|w vs] H; simpl in *;
    try contradiction.
  destruct H as [E|H]; [inversion E; subst; now left|right; now apply IH].
Qed.

(** The labels and values of one pass: the labels are distinct, every row
    of the chromosome has its label paired with the value the lookup
    returns for it, and no row of another chromosome has its label there. *)
Lemma annotate_rows (rows : list pair) (chiapet : list loop) (chrm : chrom)
    (lv : list nat * list npfloat) :
  annotate (reset_index rows) chiapet chrm = Ok lv ->
  NoDup (map fst (combine (fst lv) (snd lv)))
  /\ forall i p,
       nth_error rows i = Some p ->
       (ElementChr p = chrm ->
        exists v, loc (lookup_on rows chiapet chrm)
                      (ElementName p) (GeneEnsemblID p) = Ok v
                  /\ In (i, v) (combine (fst lv) (snd lv)))
       /\ (ElementChr p <> chrm ->
           ~ In i (map fst (combine (fst lv) (snd lv)))).
Proof.
  intros H. apply annotate_Ok in H. destruct H as (_ & Hl & E).
  fold (rows_on rows chrm) in Hl, E. fold (loops_on chiapet chrm) in E.
  fold (lookup_on rows chiapet chrm) in E.
  rewrite Hl. unfold index. split.
  - apply NoDup_map_fst_combine. unfold rows_on.
    apply NoDup_map_fst_filter, NoDup_index_reset.
  - intros i p Hp. split.
    + intros Hchr.
      assert (Hin : In (i, p) (rows_on rows chrm)).
      { unfold rows_on. apply filter_In. split; [now apply In_reset_index|].
        simpl. now apply chrom_eqb_eq. }
      destruct (mapM_Ok_In _ _ _ E (i, p) Hin) as (v & Hv & Hc).
      exists v. split; [exact Hv|].
      exact (In_combine_map_fst _ _ _ _ Hc).
    + intros Hchr Hin.
      apply in_map_iff in Hin. destruct Hin as ([j v] & Ej & Hjv).
      simpl in Ej. subst j. apply in_combine_l in Hjv.
      apply in_map_iff in Hjv. destruct Hjv as ([j q] & Ej & Hq).
      simpl in Ej. subst j. unfold rows_on in Hq. apply filter_In in Hq.
      destruct Hq as [Hq Hc]. apply In_reset_index in Hq. simpl in Hc.
      apply chrom_eqb_eq in Hc. congruence.
Qed.

(** One pass of the loop over chromosomes writes, for every row of the
    chromosome, the cell the lookup returns for its pair, and leaves the
    cells of the other rows. *)
Lemma process_chr_row (table : list pair) (chiapet : list loop)
    (chrm : chrom) (col col' : list npfloat) :
  length col = length table ->
  process_chr (reset_index table) chiapet chrm col = Ok col' ->
  forall i p,
    nth_error table i = Some p ->
    (ElementChr p = chrm ->
     exists v, loc (lookup_on table chiapet chrm)
                   (ElementName p) (GeneEnsemblID p) = Ok v
               /\ nth_error col' i = Some v)
    /\ (ElementChr p <> chrm -> nth_error col' i = nth_error col i).
Proof.
  intros Hlen. unfold process_chr.
  destruct (annotate (reset_index table) chiapet chrm) as [lv| | |] eqn:E;
    simpl; try discriminate.
  intros H i p Hp. inversion H; subst col'; clear H.
  destruct (annotate_rows table chiapet chrm lv E) as [Hnd Hrows].
  destruct (Hrows i p Hp) as [Hsame Hother].
  unfold loc_assign. split.
  - intros Hchr. destruct (Hsame Hchr) as (v & Hv & Hin).
    exists v. split; [exact Hv|].
    apply assign_fold_same; [exact Hnd|exact Hin|].
    rewrite Hlen. apply nth_error_lt in Hp. exact Hp.
  - intros Hchr. apply assign_fold_other. now apply Hother.
Qed.

Lemma chrom_eq_dec (a b : chrom) : {a = b} + {a <> b}.
Proof.
  destruct (chrom_eqb a b) eqn:E.
  - left. now apply chrom_eqb_eq.
  - right. intros H. apply chrom_eqb_eq in H. congruence.
Qed.

Lemma for_each_chr_row (table : list pair) (chiapet : list loop)
    (chrms : list chrom) :
  forall col col',
    length col = length table ->
    for_each_chr (reset_index table) chiapet chrms col = Ok col' ->
    forall i p,
      nth_error table i = Some p ->
      (In (ElementChr p) chrms ->
       exists v, loc (lookup_on table chiapet (ElementChr p))
                     (ElementName p) (GeneEnsemblID p) = Ok v
                 /\ nth_error col' i = Some v)
      /\ (~ In (ElementChr p) chrms -> nth_error col' i = nth_error col i).
Proof.
  induction chrms as [|chrm rest IH]; intros col col' Hlen H i p Hp; simpl in H.
  - inversion H; subst. split; [contradiction|reflexivity].
  - destruct (process_chr (reset_index table) chiapet chrm col) as [col1| | |] eqn:E;
      try discriminate. simpl in H.
    assert (Hlen1 : length col1 = length table).
    { unfold process_chr in E.
      destruct (annotate _ _ _) as [lv| | |]; simpl in E; try discriminate.
      inversion E. now rewrite loc_assign_length. }
    destruct (process_chr_row table chiapet chrm col col1 Hlen E i p Hp)
      as [Hsame Hother].
    destruct (IH col1 col' Hlen1 H i p Hp) as [Hin Hout].
    split.
    + intros [Hc|Hc].
      * destruct (in_dec chrom_eq_dec (ElementChr p) rest) as [Hr|Hr];
          [now apply Hin|].
        subst chrm. destruct (Hsame eq_refl) as (v & Hv & Hn). exists v.
        split; [exact Hv|]. now rewrite (Hout Hr).
      * now apply Hin.
    + intros Hn. simpl in Hn. rewrite (Hout ltac:(tauto)).
      apply Hother. intros Hc. apply Hn. left. now symmetry.
Qed.

Lemma string_eqb_eq (x y : string) : String.eqb x y = true <-> x = y.
Proof. apply String.eqb_eq. Qed.

Lemma nth_error_combine_some {A B : Type} (l : list A) (l' : list B) :
  forall i x y,
    nth_error l i = Some x -> nth_error l' i = Some y ->
    nth_error (combine l l') i = Some (x, y).
Proof.
  revert l'. induction l as [|a l IH]; intros [|b l'] [|i] x y Hx Hy;
    simpl in *; try discriminate.
  - now inversion Hx; inversion Hy.
  - now apply IH.
Qed.

(** Every row of a written table carries the cell of its own pair in the
    lookup of its own chromosome. *)
Lemma pinloop_table_row (table : list pair) (chiapet : list loop)
    (out : list (pair * npfloat)) :
  pinloop_table table chiapet = Ok out ->
  forall i p,
    nth_error table i = Some p ->
    exists v,
      nth_error out i = Some (p, v)
      /\ loc (lookup_on table chiapet (ElementChr p))
             (ElementName p) (GeneEnsemblID p) = Ok v.
Proof.
  unfold pinloop_table.
  destruct (for_each_chr _ _ _ _) as [col| | |] eqn:E; simpl; try discriminate.
  intros H i p Hp. inversion H; subst out; clear H.
  destruct (for_each_chr_row table chiapet _ _ col
              (repeat_length _ _) E i p Hp) as [Hin _].
  destruct Hin as (v & Hv & Hn).
  { apply (drop_duplicates_In _ chrom_eqb_eq). apply in_map.
    eapply nth_error_In. exact Hp. }
  exists v. split; [|exact Hv]. now apply nth_error_combine_some.
Qed.

(** ** Further theorems *)

(** X1.  Whatever the order of the gene and element arrays, the ranks
    that [alloc_pinloop] writes lie between 0 and the length of their
    axis, so on a non-empty axis the dictionaries of [p_inloop_dense] find
    every one of them and no slice bound is ever [None]. *)
Theorem ranks_never_miss (genes : list gene_row) (elements : list element_row)
    (df_chiapet : list loop) (al : alloc_loop) :
  In al (alloc_pinloop (reset_index genes) (reset_index elements) df_chiapet) ->
  in_range (length genes) (length elements) al
  /\ (genes <> [] ->
      dict_get (id_keys (index (reset_index genes))) (rnaseq_start al)
      = Some (rnaseq_start al)
      /\ dict_get (id_keys (index (reset_index genes))) (rnaseq_end al)
         = Some (rnaseq_end al))
  /\ (elements <> [] ->
      dict_get (id_keys (index (reset_index elements))) (atac_start al)
      = Some (atac_start al)
      /\ dict_get (id_keys (index (reset_index elements))) (atac_end al)
         = Some (atac_end al)).
Proof.
  intros Hin.
  pose proof (alloc_pinloop_in_range genes elements df_chiapet) as Hall.
  rewrite Forall_forall in Hall. specialize (Hall al Hin).
  destruct Hall as (H1 & H2 & H3 & H4). rewrite !index_reset_index.
  split; [repeat split; assumption|]. split; intros Hne.
  - assert (0 < length genes) by (destruct genes; [contradiction|simpl; lia]).
    split; apply dict_get_range; assumption.
  - assert (0 < length elements)
      by (destruct elements; [contradiction|simpl; lia]).
    split; apply dict_get_range; assumption.
Qed.

Lemma ranks_never_miss_witness :
  map (fun al => (rnaseq_start al, rnaseq_end al, atac_start al, atac_end al))
    (alloc_pinloop (reset_index genes_unsorted) chr1_elements
       [loop_150_600; loop_250_600])
  = [(1, 3, 1, 1); (3, 3, 1, 1)]
  /\ in_range 3 3 (Build_alloc_loop loop_250_600 1 1 3 3).
Proof.
  split; [vm_compute; reflexivity|].
  apply (ranks_never_miss genes_unsorted (rows chr1_elements)
           [loop_150_600; loop_250_600]).
  vm_compute. right. left. reflexivity.
Defined.

(** X2.  For genes and elements labelled [0 .. n-1] and [0 .. m-1], after
    the loop over the catalog the total of gene [g] is the sum of the
    counts of the loops whose gene range covers [g], cell [(g, e)] is the
    sum of the counts of the loops whose gene range covers [g] and whose
    element range covers [e], and the normalised cell is their quotient,
    or zero when the total is zero. *)
Theorem weights_closed_form (genes : list gene_row)
    (elements : list element_row) (df_chiapet : list loop) (g e : nat) :
  g < length genes ->
  e < length elements ->
  nth_error
    (snd (accumulate (index (reset_index genes)) (index (reset_index elements))
            (alloc_pinloop (reset_index genes) (reset_index elements) df_chiapet)))
    g
  = Some (gene_weight
            (alloc_pinloop (reset_index genes) (reset_index elements) df_chiapet)
            g)
  /\ (exists row,
        nth_error
          (fst (accumulate (index (reset_index genes))
                  (index (reset_index elements))
                  (alloc_pinloop (reset_index genes) (reset_index elements)
                     df_chiapet)))
          g = Some row
        /\ nth_error row e
           = Some (cell_weight
                     (alloc_pinloop (reset_index genes) (reset_index elements)
                        df_chiapet)
                     g e))
  /\ (exists row,
        nth_error
          (p_inloop_dense (index (reset_index genes))
             (index (reset_index elements))
             (alloc_pinloop (reset_index genes) (reset_index elements)
                df_chiapet))
          g = Some row
        /\ nth_error row e
           = Some
               (if Qeq_bool
                     (gene_weight
                        (alloc_pinloop (reset_index genes)
                           (reset_index elements) df_chiapet) g) 0
                then Finite 0
                else Finite
                       (cell_weight
                          (alloc_pinloop (reset_index genes)
                             (reset_index elements) df_chiapet) g e
                        / gene_weight
                            (alloc_pinloop (reset_index genes)
                               (reset_index elements) df_chiapet) g))).
Proof.
  intros Hg He. rewrite !index_reset_index.
  pose proof (alloc_pinloop_in_range genes elements df_chiapet) as Hin.
  destruct (accumulate_at _ _ g e Hg He _ Hin) as [Ht Hc].
  split; [exact Ht|]. split; [exact Hc|].
  exact (p_inloop_dense_at _ _ g e _ Hg He Hin).
Qed.

Lemma weights_closed_form_witness :
  nth_error
    (snd (accumulate (index chr1_genes) (index chr1_elements)
            (alloc_pinloop chr1_genes chr1_elements [loop_80_950; loop_300_950])))
    1
  = Some (gene_weight
            (alloc_pinloop chr1_genes chr1_elements [loop_80_950; loop_300_950])
            1).
Proof.
  apply (weights_closed_form
           [("G0", "g0", 100%Z); ("G1", "g1", 500%Z); ("G2", "g2", 900%Z)]%string
           [("E0", 40%Z, 60%Z); ("E1", 590%Z, 610%Z); ("E2", 990%Z, 1010%Z)]%string
           [loop_80_950; loop_300_950] 1 1); simpl; lia.
Defined.

(** On a gene axis in ascending order, every loop of the catalog gets the
    ranks its two anchors would get alone. *)
Lemma alloc_pinloop_rna_ranks (i0 : nat) (g : gene_row)
    (df_rna : frame gene_row) (df_atac : frame element_row)
    (df_chiapet : list loop) :
  ascending (map (fun r => inject_Z (gene_tss (snd r))) ((i0, g) :: df_rna)) ->
  Forall
    (fun al =>
       rnaseq_start al
       = searchsorted (map (fun r => inject_Z (gene_tss (snd r)))
                           ((i0, g) :: df_rna))
                      (inject_Z (center1 (source al))) + i0
       /\ rnaseq_end al
          = searchsorted (map (fun r => inject_Z (gene_tss (snd r)))
                              ((i0, g) :: df_rna))
                         (inject_Z (center2 (source al))) + i0)
    (alloc_pinloop ((i0, g) :: df_rna) df_atac df_chiapet).
Proof.
  intros Hs. unfold alloc_pinloop.
  pose proof (atac_loops_source df_atac df_chiapet) as Ha.
  set (loops := match df_atac with [] => _ | _ :: _ => _ end) in *.
  set (tss := map (fun r => inject_Z (gene_tss (snd r))) ((i0, g) :: df_rna)) in *.
  rewrite !ranks_per_key by apply (searchsorted_keys_ascending tss Hs).
  rewrite (assign_column_by_source with_rnaseq_start
             (fun l => searchsorted tss (inject_Z (center1 l)) + i0) _ df_chiapet)
    by exact Ha.
  rewrite (assign_column_by_source with_rnaseq_end
             (fun l => searchsorted tss (inject_Z (center2 l)) + i0) _ df_chiapet)
    by (rewrite map_map; simpl; exact Ha).
  rewrite !Forall_map. apply Forall_forall. intros al _. simpl. auto.
Qed.

(** X3.  Over genes in ascending order of TSS, whatever the catalog and
    the order of its loops, the gene range that [alloc_pinloop] writes for
    a loop holds exactly the genes with [center1 <= TSS < center2]. *)
Theorem ranges_are_intervals (genes : list gene_row)
    (df_atac : frame element_row) (df_chiapet : list loop) (al : alloc_loop)
    (dg : gene_row) (j : nat) :
  ascending (map (fun g => inject_Z (gene_tss g)) genes) ->
  In al (alloc_pinloop (reset_index genes) df_atac df_chiapet) ->
  j < length genes ->
  (covers (rnaseq_start al) (rnaseq_end al) j = true
   <-> (center1 (source al) <= gene_tss (nth j genes dg)
        < center2 (source al))%Z).
Proof.
  intros Hs Hal Hj.
  assert (Hm : map (fun r : nat * gene_row => inject_Z (gene_tss (snd r)))
                   (reset_index genes)
               = map (fun g => inject_Z (gene_tss g)) (rows (reset_index genes)))
    by (unfold rows; now rewrite map_map).
  rewrite rows_reset_index in Hm.
  pose proof (length_reset_index genes) as HL.
  destruct (reset_index genes) as [|[i0 g] df] eqn:E; [simpl in HL; lia|].
  pose proof (reset_index_head _ _ _ _ E) as Hi0. subst i0.
  rewrite <- Hm in Hs.
  pose proof (alloc_pinloop_rna_ranks 0 g df df_atac df_chiapet Hs) as Hall.
  rewrite Forall_forall in Hall. destruct (Hall al Hal) as [-> ->].
  rewrite !Nat.add_0_r, covers_iff.
  rewrite searchsorted_between
    by (try exact Hs; rewrite length_map; simpl in *; lia).
  rewrite Hm.
  rewrite (map_nth_lt (fun g => inject_Z (gene_tss g)) genes j dg) by exact Hj.
  rewrite <- Zle_Qle, <- Zlt_Qlt. tauto.
Qed.

Lemma ranges_are_intervals_witness :
  covers 1 3 1 = true
  <-> (center1 loop_300_950
       <= gene_tss (nth 1 [("G0", "g0", 100%Z); ("G1", "g1", 500%Z);
                           ("G2", "g2", 900%Z)]%string
                         (EmptyString, EmptyString, 0%Z))
       < center2 loop_300_950)%Z.
Proof.
  apply (ranges_are_intervals
           [("G0", "g0", 100%Z); ("G1", "g1", 500%Z); ("G2", "g2", 900%Z)]%string
           chr1_elements [loop_80_950; loop_300_950]
           (Build_alloc_loop loop_300_950 1 2 1 3)
           (EmptyString, EmptyString, 0%Z) 1).
  - repeat constructor; unfold Qle; simpl; lia.
  - vm_compute. right. left. reflexivity.
  - simpl. lia.
Defined.

(** ** What a written table holds *)

(** X4.  In a written table, the [Pinloop] of every row is the cell that
    the lookup of the row's own chromosome, built from the rows and the
    loops of that chromosome alone, returns for the row's element name
    and gene identifier. *)
Theorem row_gets_own_cell (table : list pair) (chiapet : list loop)
    (out : list (pair * npfloat)) (i : nat) (p : pair) :
  pinloop_table table chiapet = Ok out ->
  nth_error table i = Some p ->
  exists v,
    nth_error out i = Some (p, v)
    /\ loc (lookup_on table chiapet (ElementChr p))
           (ElementName p) (GeneEnsemblID p) = Ok v.
Proof. intros H Hp. exact (pinloop_table_row table chiapet out H i p Hp). Qed.

Lemma row_gets_own_cell_witness :
  exists v,
    nth_error (combine table_ascending [Finite 0; Finite (4 # 4)]) 1
    = Some (row_of "chr1" 590 610 "E1" "G500" "g500" 500, v)
    /\ loc (lookup_on table_ascending [loop_300_950] "chr1") "E1" "G500" = Ok v.
Proof.
  apply (row_gets_own_cell table_ascending [loop_300_950]
           (combine table_ascending [Finite 0; Finite (4 # 4)]) 1
           (row_of "chr1" 590 610 "E1" "G500" "g500" 500));
    reflexivity.
Defined.

(** X5.  In a written table, two rows with the same chromosome, element
    name and gene identifier have the same [Pinloop]. *)
Theorem same_pair_same_value (table : list pair) (chiapet : list loop)
    (out : list (pair * npfloat)) (p q : pair) (v w : npfloat) :
  pinloop_table table chiapet = Ok out ->
  In (p, v) out -> In (q, w) out ->
  ElementChr p = ElementChr q ->
  ElementName p = ElementName q ->
  GeneEnsemblID p = GeneEnsemblID q ->
  v = w.
Proof.
  intros H Hp Hq Hc Hn Hg.
  assert (Hrow : forall r x, In (r, x) out ->
            loc (lookup_on table chiapet (ElementChr r))
                (ElementName r) (GeneEnsemblID r) = Ok x).
  { intros r x Hr. apply In_nth_error in Hr. destruct Hr as [i Hi].
    assert (Hout : exists col, out = combine table col).
    { unfold pinloop_table in H.
      destruct (for_each_chr _ _ _ _) as [col| | |]; simpl in H; try discriminate.
      inversion H. now exists col. }
    destruct Hout as [col ->].
    assert (Ht : nth_error table i = Some r).
    { clear - Hi. revert col i Hi.
      induction table as [|a t IH]; intros [|b col] [|i] Hi; simpl in *;
        try discriminate.
      - now inversion Hi.
      - exact (IH col i Hi). }
    destruct (pinloop_table_row table chiapet _ H i r Ht) as (x' & Hx' & Hl).
    rewrite Hi in Hx'. inversion Hx'; subst x'. exact Hl. }
  pose proof (Hrow p v Hp) as Hv. pose proof (Hrow q w Hq) as Hw.
  rewrite Hc, Hn, Hg in Hv. rewrite Hv in Hw. now inversion Hw.
Qed.

Lemma same_pair_same_value_witness :
  pinloop_table (table_ascending ++ table_ascending) [loop_300_950]
  = Ok (combine (table_ascending ++ table_ascending)
                [Finite 0; Finite (4 # 4); Finite 0; Finite (4 # 4)])
  /\ Finite (4 # 4) = Finite (4 # 4).
Proof.
  split; [reflexivity|].
  apply (same_pair_same_value
           (table_ascending ++ table_ascending) [loop_300_950]
           (combine (table_ascending ++ table_ascending)
                    [Finite 0; Finite (4 # 4); Finite 0; Finite (4 # 4)])
           (row_of "chr1" 590 610 "E1" "G500" "g500" 500)
           (row_of "chr1" 590 610 "E1" "G500" "g500" 500)).
  - reflexivity.
  - right. left. reflexivity.
  - right. right. right. left. reflexivity.
  - reflexivity.
  - reflexivity.
  - reflexivity.
Defined.

Lemma divide_where_zeros (n m : nat) :
  Forall (Forall (fun v => v = Finite 0)) (divide_where (zeros2 n m) (zeros n)).
Proof.
  unfold divide_where, zeros2, zeros. induction n as [|n IH]; simpl;
    constructor; [|exact IH].
  apply Forall_forall. intros v Hv. apply in_map_iff in Hv.
  now destruct Hv as (x & <- & _).
Qed.

(** X6.  In a written table, a row on a chromosome for which the catalog
    has no loop shorter than 1,000,000 has [Pinloop] 0. *)
Theorem no_short_loop_zero (table : list pair) (chiapet : list loop)
    (out : list (pair * npfloat)) (i : nat) (p : pair) :
  pinloop_table table chiapet = Ok out ->
  nth_error table i = Some p ->
  (forall l, In l chiapet -> chr l = ElementChr p ->
             (1000000 <= loop_length l)%Z) ->
  nth_error out i = Some (p, Finite 0).
Proof.
  intros H Hp Hlong.
  destruct (pinloop_table_row table chiapet out H i p Hp) as (v & Hv & Hl).
  rewrite Hv. do 2 f_equal.
  apply (loc_Ok_Forall (fun v => v = Finite 0)) in Hl; [exact Hl|reflexivity|].
  unfold lookup_on, lookup_of; simpl. apply transpose_Forall.
  assert (E : short_loops (loops_on chiapet (ElementChr p)) = []).
  { unfold short_loops, loops_on.
    destruct (filter _ (filter _ chiapet)) as [|l ls] eqn:E; [reflexivity|].
    assert (Hin : In l (l :: ls)) by now left.
    rewrite <- E in Hin. apply filter_In in Hin. destruct Hin as [Hin Hs].
    apply filter_In in Hin. destruct Hin as [Hin Hc].
    apply chrom_eqb_eq in Hc. apply Z.ltb_lt in Hs.
    specialize (Hlong l Hin Hc). lia. }
  rewrite E. unfold alloc_pinloop.
  assert (Hnil : forall (df_rna : frame gene_row) (df_atac : frame element_row),
             alloc_pinloop df_rna df_atac [] = []).
  { intros df_rna df_atac. unfold alloc_pinloop.
    now destruct df_rna as [|[? ?] ?], df_atac as [|[? ?] ?]. }
  fold (alloc_pinloop (genes_of (rows_on table (ElementChr p)))
          (elements_of (rows_on table (ElementChr p))) []).
  rewrite Hnil. unfold p_inloop_dense, accumulate; simpl.
  apply divide_where_zeros.
Qed.

Lemma no_short_loop_zero_witness :
  nth_error (combine table_chr1 (repeat (Finite 0) 4)) 1
  = Some (row_of "chr1" 590 610 "E1" "G0" "g0" 100, Finite 0).
Proof.
  apply (no_short_loop_zero table_chr1 [loop_long]
           (combine table_chr1 (repeat (Finite 0) 4)) 1
           (row_of "chr1" 590 610 "E1" "G0" "g0" 100)).
  - reflexivity.
  - reflexivity.
  - intros l [<-|[]] _. vm_compute. discriminate.
Defined.

(** ** When the script stops *)

Lemma loc_present_not_KeyError (df : DataFrame) (r c label : string) :
  In r (df_index df) -> In c (df_columns df) -> loc df r c <> KeyError label.
Proof.
  intros Hr Hc. unfold loc, positions.
  pose proof (positions_from_present r _ 0 Hr) as H1.
  pose proof (positions_from_present c _ 0 Hc) as H2.
  destruct (positions_from 0 r (df_index df)) as [|i [|i' li]];
    destruct (positions_from 0 c (df_columns df)) as [|j [|j' lj]];
    try contradiction; discriminate.
Qed.

Lemma mapM_not_KeyError {A B : Type} (f : A -> result B) (l : list A)
    (label : string) :
  (forall a, In a l -> f a <> KeyError label) -> mapM f l <> KeyError label.
Proof.
  induction l as [|a l IH]; intros Hf; simpl; [discriminate|].
  pose proof (Hf a (or_introl eq_refl)) as Ha.
  destruct (f a) as [b|k|k|]; simpl;
    [|intros E; apply Ha; congruence|discriminate|discriminate].
  assert (Hl : mapM f l <> KeyError label)
    by (apply IH; intros a' Hin; apply Hf; now right).
  destruct (mapM f l) as [bs|k|k|]; simpl;
    [discriminate|intros E; apply Hl; congruence|discriminate|discriminate].
Qed.

Lemma annotate_not_KeyError (pair_info : frame pair) (chiapet : list loop)
    (chrm : chrom) (label : string) :
  annotate pair_info chiapet chrm <> KeyError label.
Proof.
  unfold annotate. destruct chrm as [s|z]; [|discriminate].
  set (pairs := filter _ pair_info). set (loops := filter _ chiapet).
  assert (H : mapM (fun ip => loc (lookup_of pairs loops) (ElementName (snd ip))
                                  (GeneEnsemblID (snd ip))) pairs
              <> KeyError label).
  { apply mapM_not_KeyError. intros ip Hin.
    apply loc_present_not_KeyError; simpl;
      [now apply elements_of_In|now apply genes_of_In]. }
  destruct (mapM _ pairs) as [vals|k|k|]; simpl;
    [discriminate|intros E; apply H; congruence|discriminate|discriminate].
Qed.

Lemma process_chr_not_KeyError (pair_info : frame pair) (chiapet : list loop)
    (chrm : chrom) (col : list npfloat) (label : string) :
  process_chr pair_info chiapet chrm col <> KeyError label.
Proof.
  unfold process_chr.
  pose proof (annotate_not_KeyError pair_info chiapet chrm label) as H.
  destruct (annotate _ _ _) as [lv|k|k|]; simpl;
    [discriminate|intros E; apply H; congruence|discriminate|discriminate].
Qed.

(** X7.  The script never stops on a missing label: every row's element
    name and gene identifier are on the axes of the lookup of its
    chromosome, so no run ends in [KeyError]. *)
Theorem lookup_never_key_error (table : list pair) (chiapet : list loop)
    (label : string) :
  pinloop_table table chiapet <> KeyError label.
Proof.
  unfold pinloop_table.
  assert (H : forall chrms col,
             for_each_chr (reset_index table) chiapet chrms col
             <> KeyError label).
  { induction chrms as [|chrm rest IH]; intros col; simpl; [discriminate|].
    pose proof (process_chr_not_KeyError (reset_index table) chiapet chrm col
                  label) as Hp.
    destruct (process_chr _ _ chrm col) as [col1|k|k|]; simpl;
      [apply IH|intros E; apply Hp; congruence|discriminate|discriminate]. }
  specialize (H (drop_duplicates chrom_eqb (map ElementChr table))
                (repeat (Finite 0) (length table))).
  destruct (for_each_chr _ _ _ _) as [col|k|k|]; simpl;
    [discriminate|intros E; apply H; congruence|discriminate|discriminate].
Qed.

Lemma positions_from_In (label : string) (axis : list string) :
  forall k j, nth_error axis j = Some label ->
              In (k + j) (positions_from k label axis).
Proof.
  induction axis as [|l axis IH]; intros k j Hj; [destruct j; discriminate|].
  simpl. destruct j as [|j]; simpl in Hj.
  - inversion Hj; subst. rewrite String.eqb_refl, Nat.add_0_r. now left.
  - replace (k + S j) with (S k + j) by lia.
    destruct (String.eqb l label); [right|]; now apply IH.
Qed.

Lemma loc_Ok_single (df : DataFrame) (r c : string) (v : npfloat) :
  loc df r c = Ok v ->
  (forall j j', nth_error (df_index df) j = Some r ->
                nth_error (df_index df) j' = Some r -> j = j')
  /\ (forall j j', nth_error (df_columns df) j = Some c ->
                   nth_error (df_columns df) j' = Some c -> j = j').
Proof.
  unfold loc, positions. intros H.
  destruct (positions_from 0 r (df_index df)) as [|i [|i' li]] eqn:Er;
    destruct (positions_from 0 c (df_columns df)) as [|k [|k' lk]] eqn:Ec;
    try discriminate.
  split; intros j j' Hj Hj'.
  - apply (positions_from_In _ _ 0) in Hj, Hj'. rewrite Er in Hj, Hj'.
    simpl in *. lia.
  - apply (positions_from_In _ _ 0) in Hj, Hj'. rewrite Ec in Hj, Hj'.
    simpl in *. lia.
Qed.

Lemma same_label_same_row {A : Type} (f : A -> string) (l : list A) (x y : A) :
  (forall j j', nth_error (map f l) j = Some (f x) ->
                nth_error (map f l) j' = Some (f x) -> j = j') ->
  In x l -> In y l -> f x = f y -> x = y.
Proof.
  intros Hone Hx Hy Hf.
  apply In_nth_error in Hx, Hy. destruct Hx as [j Hj], Hy as [j' Hj'].
  assert (E : j = j').
  { apply Hone; rewrite nth_error_map; [now rewrite Hj|].
    rewrite Hj'. simpl. now rewrite Hf. }
  subst j'. congruence.
Qed.

Lemma for_each_chr_Ok_strings (pair_info : frame pair) (chiapet : list loop)
    (chrms : list chrom) :
  forall col col',
    for_each_chr pair_info chiapet chrms col = Ok col' ->
    Forall (fun c => exists s : string, c = ChrStr s) chrms.
Proof.
  induction chrms as [|chrm rest IH]; intros col col' H; [constructor|].
  simpl in H. unfold process_chr in H.
  destruct (annotate pair_info chiapet chrm) as [lv| | |] eqn:E;
    simpl in H; try discriminate.
  apply annotate_Ok in E. destruct E as (Hstr & _). constructor; [exact Hstr|].
  exact (IH _ _ H).
Qed.

(** X8.  The values are computed for every row exactly when every
    chromosome name of the pair table is a string and the labels are
    consistent: on each chromosome, no element name on two different
    intervals and no gene identifier with two different symbols or TSS.
    A chromosome column parsed as integers stops the script at its first
    [print], and a label on two loci at the lookup. *)
Theorem writes_iff_consistent (table : list pair) (chiapet : list loop) :
  (exists out, pinloop_table table chiapet = Ok out)
  <-> consistent_labels table /\ Forall chr_is_string table.
Proof.
  split.
  - intros [out Hout]. split.
    2:{ unfold pinloop_table in Hout.
        destruct (for_each_chr _ _ _ _) as [col| | |] eqn:E; simpl in Hout;
          try discriminate.
        apply for_each_chr_Ok_strings in E. rewrite Forall_forall in E.
        apply Forall_forall. intros p Hp. apply E.
        apply (drop_duplicates_In _ chrom_eqb_eq). now apply in_map. }
    intros p q Hp Hq Hc.
    apply In_nth_error in Hp. destruct Hp as [i Hi].
    destruct (pinloop_table_row table chiapet out Hout i p Hi) as (v & _ & Hl).
    apply loc_Ok_single in Hl. destruct Hl as [Hrow Hcol].
    unfold lookup_on, lookup_of in Hrow, Hcol; simpl in Hrow, Hcol.
    unfold elements_of in Hrow. unfold genes_of in Hcol.
    rewrite rows_reset_index in Hrow. rewrite rows_reset_index in Hcol.
    assert (Hmem : forall r, In r table -> ElementChr r = ElementChr p ->
               exists k, In (k, r) (rows_on table (ElementChr p))).
    { intros r Hr Hrc. apply In_nth_error in Hr. destruct Hr as [k Hk].
      exists k. unfold rows_on. apply filter_In.
      split; [now apply In_reset_index|]. now apply chrom_eqb_eq. }
    destruct (Hmem p (nth_error_In _ _ Hi) eq_refl) as [kp Hkp].
    destruct (Hmem q Hq (eq_sym Hc)) as [kq Hkq].
    split; intros Hname.
    + assert (E : (ElementName p, ElementStart p, ElementEnd p)
                  = (ElementName q, ElementStart q, ElementEnd q)).
      { eapply (same_label_same_row element_name _
                  (ElementName p, ElementStart p, ElementEnd p)
                  (ElementName q, ElementStart q, ElementEnd q)).
        - exact Hrow.
        - apply (drop_duplicates_In _ element_row_eqb_eq).
          apply in_map_iff. now exists (kp, p).
        - apply (drop_duplicates_In _ element_row_eqb_eq).
          apply in_map_iff. now exists (kq, q).
        - exact Hname. }
      inversion E. auto.
    + assert (E : (GeneEnsemblID p, GeneSymbol p, GeneTSS p)
                  = (GeneEnsemblID q, GeneSymbol q, GeneTSS q)).
      { eapply (same_label_same_row gene_id _
                  (GeneEnsemblID p, GeneSymbol p, GeneTSS p)
                  (GeneEnsemblID q, GeneSymbol q, GeneTSS q)).
        - exact Hcol.
        - apply (drop_duplicates_In _ gene_row_eqb_eq).
          apply in_map_iff. now exists (kp, p).
        - apply (drop_duplicates_In _ gene_row_eqb_eq).
          apply in_map_iff. now exists (kq, q).
        - exact Hname. }
      inversion E. auto.
  - intros [Hcons Hstr]. unfold pinloop_table.
    destruct (for_each_chr_total table chiapet
                (drop_duplicates chrom_eqb (map ElementChr table)) Hcons)
      with (col := repeat (Finite 0) (length table)) as [col ->].
    + apply Forall_forall. intros c Hc.
      apply -> (drop_duplicates_In _ chrom_eqb_eq) in Hc.
      apply in_map_iff in Hc. destruct Hc as (p & <- & Hp).
      rewrite Forall_forall in Hstr. exact (Hstr p Hp).
    + simpl. eauto.
Qed.

(** ** Loops on other chromosomes *)

Lemma for_each_chr_loops_on (pair_info : frame pair) (c c' : list loop)
    (chrms : list chrom) :
  (forall chrm, In chrm chrms -> loops_on c chrm = loops_on c' chrm) ->
  forall col,
    for_each_chr pair_info c chrms col = for_each_chr pair_info c' chrms col.
Proof.
  induction chrms as [|chrm rest IH]; intros H col; simpl; [reflexivity|].
  assert (E : process_chr pair_info c chrm col
              = process_chr pair_info c' chrm col).
  { unfold process_chr, annotate. destruct chrm as [s|z]; [|reflexivity].
    fold (loops_on c s). fold (loops_on c' s).
    now rewrite (H s (or_introl eq_refl)). }
  rewrite E. destruct (process_chr pair_info c' chrm col); simpl; auto.
  apply IH. intros chrm' Hin. apply H. now right.
Qed.

(** X9.  A loop on a chromosome that carries no row of the pair table can
    be put in or taken out of the catalog, at any place, without changing
    the result of the script. *)
Theorem loops_elsewhere_ignored (table : list pair) (c1 c2 : list loop)
    (l : loop) :
  (forall p, In p table -> ElementChr p <> chr l) ->
  pinloop_table table (c1 ++ l :: c2) = pinloop_table table (c1 ++ c2).
Proof.
  intros H. unfold pinloop_table.
  rewrite (for_each_chr_loops_on (reset_index table) (c1 ++ l :: c2) (c1 ++ c2));
    [reflexivity|].
  intros chrm Hin. apply -> (drop_duplicates_In _ chrom_eqb_eq) in Hin.
  apply in_map_iff in Hin. destruct Hin as (p & <- & Hp).
  unfold loops_on. rewrite !filter_app. simpl.
  destruct (chrom_eqb (chr l) (ElementChr p)) eqn:E; [|reflexivity].
  exfalso. apply chrom_eqb_eq in E. apply (H p Hp). now symmetry.
Qed.

Lemma loops_elsewhere_ignored_witness :
  pinloop_table table_chr1
    ([loop_80_950]
     ++ {| chr := "chr2"; center1 := 80; center2 := 950; loop_length := 870;
           count := 9 |} :: [])
  = pinloop_table table_chr1 ([loop_80_950] ++ []).
Proof.
  apply (loops_elsewhere_ignored table_chr1 [loop_80_950] []).
  intros p Hp. simpl in Hp.
  destruct Hp as [<-|[<-|[<-|[<-|[]]]]]; vm_compute; discriminate.
Defined.

(** ** The derived gene and element frames *)

Lemma drop_duplicates_from_id {A : Type} (eqb : A -> A -> bool)
    (eqb_eq : forall x y, eqb x y = true <-> x = y) (l : list A) :
  NoDup l ->
  forall seen, (forall x, In x l -> ~ In x seen) ->
               drop_duplicates_from eqb seen l = l.
Proof.
  induction 1 as [|x l Hx Hl IH]; intros seen Hs; simpl; [reflexivity|].
  destruct (existsb (eqb x) seen) eqn:E.
  - apply (existsb_eqb_In eqb eqb_eq) in E. exfalso.
    apply (Hs x); [now left|exact E].
  - f_equal. apply IH. intros y Hy [->|Hin]; [contradiction|].
    apply (Hs y); [now right|exact Hin].
Qed.

(** X10.  The gene frame of a chromosome holds every triple
    (identifier, symbol, TSS) of the chromosome's rows exactly once and
    nothing else, under the labels [0 .. n-1], and likewise the element
    frame for the triples (name, start, end); when the triples of the rows
    are already distinct, they are kept in the order of the rows. *)
Theorem derived_frames_unique (pairs_on_chr : frame pair) :
  (NoDup (rows (genes_of pairs_on_chr))
   /\ (forall g, In g (rows (genes_of pairs_on_chr))
                 <-> exists ip, In ip pairs_on_chr
                                /\ g = (GeneEnsemblID (snd ip),
                                        GeneSymbol (snd ip), GeneTSS (snd ip)))
   /\ index (genes_of pairs_on_chr)
      = seq 0 (length (rows (genes_of pairs_on_chr)))
   /\ (NoDup (map (fun ip => (GeneEnsemblID (snd ip), GeneSymbol (snd ip),
                              GeneTSS (snd ip))) pairs_on_chr) ->
       rows (genes_of pairs_on_chr)
       = map (fun ip => (GeneEnsemblID (snd ip), GeneSymbol (snd ip),
                         GeneTSS (snd ip))) pairs_on_chr))
  /\ (NoDup (rows (elements_of pairs_on_chr))
      /\ (forall e, In e (rows (elements_of pairs_on_chr))
                    <-> exists ip, In ip pairs_on_chr
                                   /\ e = (ElementName (snd ip),
                                           ElementStart (snd ip),
                                           ElementEnd (snd ip)))
      /\ index (elements_of pairs_on_chr)
         = seq 0 (length (rows (elements_of pairs_on_chr)))
      /\ (NoDup (map (fun ip => (ElementName (snd ip), ElementStart (snd ip),
                                 ElementEnd (snd ip))) pairs_on_chr) ->
          rows (elements_of pairs_on_chr)
          = map (fun ip => (ElementName (snd ip), ElementStart (snd ip),
                            ElementEnd (snd ip))) pairs_on_chr)).
Proof.
  unfold genes_of, elements_of.
  rewrite !rows_reset_index, !index_reset_index. split.
  - split; [apply drop_duplicates_NoDup, gene_row_eqb_eq|].
    split; [|split; [reflexivity|]].
    + intros g. rewrite (drop_duplicates_In _ gene_row_eqb_eq), in_map_iff.
      split; intros (ip & H1 & H2); exists ip; split; auto.
    + intros Hnd. apply (drop_duplicates_from_id _ gene_row_eqb_eq _ Hnd).
      intros x _ [].
  - split; [apply drop_duplicates_NoDup, element_row_eqb_eq|].
    split; [|split; [reflexivity|]].
    + intros e. rewrite (drop_duplicates_In _ element_row_eqb_eq), in_map_iff.
      split; intros (ip & H1 & H2); exists ip; split; auto.
    + intros Hnd. apply (drop_duplicates_from_id _ element_row_eqb_eq _ Hnd).
      intros x _ [].
Qed.

(** X11.  The data of the lookup of a chromosome always fit its axes: one
    row per element label and one cell per gene label in every row, so
    the frame can be built whatever the pairs and the loops. *)
Theorem lookup_shape (pairs_on_chr : frame pair) (chiapet_on_chr : list loop) :
  has_shape (length (df_index (lookup_of pairs_on_chr chiapet_on_chr)))
            (length (df_columns (lookup_of pairs_on_chr chiapet_on_chr)))
            (df_data (lookup_of pairs_on_chr chiapet_on_chr)).
Proof.
  unfold lookup_of; simpl.
  set (P := p_inloop_dense _ _ _).
  destruct (p_inloop_dense_shape (index (genes_of pairs_on_chr))
              (index (elements_of pairs_on_chr))
              (alloc_pinloop (genes_of pairs_on_chr) (elements_of pairs_on_chr)
                 (short_loops chiapet_on_chr))) as [Hn Hm].
  fold P in Hn, Hm.
  pose proof (transpose_shape (length (index (elements_of pairs_on_chr))) P Hm)
    as Ht.
  unfold index, rows in *. rewrite !length_map in *. now rewrite Hn in Ht.
Qed.

(** ** The name of the written file *)

Lemma before_first_dot_app (stem rest : string) :
  has_dot stem = false ->
  before_first_dot (stem ++ String "."%char rest) = stem
  /\ before_first_dot stem = stem.
Proof.
  induction stem as [|c stem IH]; intros H; simpl in *.
  - split; reflexivity.
  - apply orb_false_iff in H. destruct H as [Hc Hs]. rewrite Hc.
    destruct (IH Hs) as [-> ->]. split; reflexivity.
Qed.

Lemma before_first_dot_no_dot (s : string) : has_dot (before_first_dot s) = false.
Proof.
  induction s as [|c s IH]; simpl; [reflexivity|].
  destruct (Ascii.eqb c ".") eqn:E; simpl; [reflexivity|]. now rewrite E.
Qed.

(** X12.  The written file is named after the part of the input path
    before its first dot: for a path [stem.rest] whose [stem] has no dot
    the name is [stem_pinloop.tsv.gz], for a path without dot it is the
    path followed by [_pinloop.tsv.gz]; the part kept never holds a dot,
    and for a path starting with a dot, such as [./pairs.tsv], the name is
    [_pinloop.tsv.gz] alone. *)
Theorem output_path_stem (stem rest : string) :
  has_dot stem = false ->
  (output_path (stem ++ String "."%char rest) = stem ++ "_pinloop.tsv.gz"
   /\ output_path stem = stem ++ "_pinloop.tsv.gz"
   /\ output_path (String "."%char rest) = "_pinloop.tsv.gz"
   /\ forall argv1, has_dot (before_first_dot argv1) = false)%string.
Proof.
  intros H. unfold output_path.
  destruct (before_first_dot_app stem rest H) as [-> ->].
  repeat split. apply before_first_dot_no_dot.
Qed.

Lemma output_path_stem_witness :
  (output_path ("data/pairs" ++ String "."%char "tsv.gz")
   = "data/pairs" ++ "_pinloop.tsv.gz")%string.
Proof.
  apply (output_path_stem "data/pairs" "tsv.gz"). reflexivity.
Defined.

(** ** The frame the script writes *)












(** ** The script on frames and the values it computes *)




Lemma mapM_ext {A B : Type} (f g : A -> result B) (l : list A) :
  (forall x, f x = g x) -> mapM f l = mapM g l.
Proof.
  intros H. induction l as [|x l IH]; simpl; [reflexivity|].
  now rewrite H, IH.
Qed.











